(** * InsightAlpha (app.py): DCF valuation, RSI and the news pipeline

    A shallow embedding of the computational core of [app.py]:
    [calculate_dcf], [calculate_rsi], [get_data] and the module-level news
    loop with its sentiment aggregation.

    Numbers.  Python and pandas compute on binary64 floats.  Here a float is
    an exact rational (type [Q]); for pandas columns it is a rational, an
    infinity or NaN (type [np_float]), so that division by zero and missing
    values behave as in numpy.  Rounding, overflow and the sign of zero are
    not modelled: every statement below is about the exact value of the
    formulas the code evaluates. *)

From Stdlib Require Import ZArith QArith Qreduction Lqa Lia String Ascii List.
From stdpp Require Import gmap strings list.

Local Open Scope string_scope.
Local Open Scope list_scope.

(** ** Python exceptions *)

Inductive exn := TypeError | AttributeError | ZeroDivisionError | IndexError.

Inductive result (A : Type) :=
| Ok (a : A)
| Raise (e : exn).
Arguments Ok {A} a.
Arguments Raise {A} e.

#[global] Instance result_ret : MRet result := fun A a => Ok a.

#[global] Instance result_bind : MBind result := fun A B k m =>
  match m with
  | Ok a => k a
  | Raise e => Raise e
  end.

(** ** Values of the fundamentals dict [info] *)

Inductive pyval :=
| PNone
| PInt (z : Z)
| PFloat (q : Q)
| PStr (s : string).

(** [bool(v)] *)
Definition truthy (v : pyval) : bool :=
  match v with
  | PNone => false
  | PInt z => negb (z =? 0)%Z
  | PFloat q => negb (Qeq_bool q 0)
  | PStr s => negb (String.eqb s "")
  end.

(** The float an arithmetic operator sees; [None] and [str] operands raise. *)
Definition as_float (v : pyval) : result Q :=
  match v with
  | PInt z => Ok (inject_Z z)
  | PFloat q => Ok q
  | PNone | PStr _ => Raise TypeError
  end.

Definition Qltb (a b : Q) : bool := negb (Qle_bool b a).

(** [v < c] *)
Definition py_lt (v : pyval) (c : Q) : result bool :=
  x ← as_float v; Ok (Qltb x c).

(** [v * c] *)
Definition py_mul (v : pyval) (c : Q) : result Q :=
  x ← as_float v; Ok (x * c)%Q.

(** [a / b] on floats *)
Definition float_div (a b : Q) : result Q :=
  if Qeq_bool b 0 then Raise ZeroDivisionError else Ok (a / b)%Q.

(** [a / v] *)
Definition py_div (a : Q) (v : pyval) : result Q :=
  x ← as_float v; float_div a x.

(** [info.get(key)] and [info.get(key, dflt)] *)
Definition info_get (info : gmap string pyval) (key : string) : pyval :=
  default PNone (info !! key).

Definition info_get_or (info : gmap string pyval) (key : string) (dflt : pyval) : pyval :=
  default dflt (info !! key).

(** [range(lo, hi)], [enumerate(l, start)], [sum(l)], [l[-1]] *)
Definition range (lo hi : nat) : list nat := seq lo (hi - lo).

Definition enumerate {A} (l : list A) (start : nat) : list (nat * A) :=
  combine (seq start (length l)) l.

Definition py_sum (l : list Q) : Q := fold_left Qplus l 0%Q.

Definition index_last {A} (l : list A) : result A :=
  match last l with
  | Some a => Ok a
  | None => Raise IndexError
  end.

(** ** calculate_dcf *)

Definition growth : Q := 0.12.
Definition discount : Q := 0.10.
Definition terminal : Q := 0.03.

(** The body of the [try] block. *)
Definition dcf_try (info : gmap string pyval) : result (option Q) :=
  let fcf := info_get info "freeCashflow" in
  let shares := info_get info "sharesOutstanding" in
  reject ← (if negb (truthy fcf) then Ok true
             else neg ← py_lt fcf 0;
                  if (neg : bool) then Ok true else Ok (negb (truthy shares)));
  if (reject : bool) then Ok None
  else
    future_fcf ← mapM (fun i => py_mul fcf ((1 + growth) ^ Z.of_nat i)) (range 1 6);
    terms ← mapM (fun '(i, f) => float_div f ((1 + discount) ^ Z.of_nat i))
                 (enumerate future_fcf 1);
    let pv_fcf := py_sum terms in
    fcf_5 ← index_last future_fcf;
    tv ← float_div (fcf_5 * (1 + terminal)) (discount - terminal);
    pv_tv ← float_div tv ((1 + discount) ^ 5);
    value ← py_div (pv_fcf + pv_tv) shares;
    Ok (Some value).

(** [try: ... except: return None] *)
Definition calculate_dcf (info : gmap string pyval) : option Q :=
  match dcf_try info with
  | Ok v => v
  | Raise _ => None
  end.

(** A fundamentals dict with the two fields the valuation reads. *)
Definition fundamentals (fcf shares : pyval) : gmap string pyval :=
  {[ "freeCashflow" := fcf; "sharesOutstanding" := shares ]}.

(** The closed form of the valuation, as the specification words it: the
    five discounted projected cash flows, plus the Gordon-growth terminal
    value discounted over five years, per share. *)
Definition dcf_closed_form (fcf shares : Q) : Q :=
  ((fcf * 1.12 ^ 1 / 1.10 ^ 1 + fcf * 1.12 ^ 2 / 1.10 ^ 2 + fcf * 1.12 ^ 3 / 1.10 ^ 3
    + fcf * 1.12 ^ 4 / 1.10 ^ 4 + fcf * 1.12 ^ 5 / 1.10 ^ 5)
   + (fcf * 1.12 ^ 5) * 1.03 / (0.10 - 0.03) / 1.10 ^ 5) / shares.

(** The numeric value of a field, when it is a number. *)
Definition number (v : pyval) : option Q :=
  match v with
  | PInt z => Some (inject_Z z)
  | PFloat q => Some q
  | PNone | PStr _ => None
  end.

(** ** pandas columns: float64 values with NaN and infinities *)

Inductive np_float :=
| NaN
| Inf (neg : bool)
| Fin (q : Q).

Definition isnan (x : np_float) : bool :=
  match x with NaN => true | _ => false end.

Definition fneg (x : np_float) : np_float :=
  match x with
  | NaN => NaN
  | Inf s => Inf (negb s)
  | Fin q => Fin (Qred (- q))
  end.

Definition fadd (x y : np_float) : np_float :=
  match x, y with
  | NaN, _ | _, NaN => NaN
  | Inf s, Inf t => if Bool.eqb s t then Inf s else NaN
  | Inf s, Fin _ | Fin _, Inf s => Inf s
  | Fin p, Fin q => Fin (Qred (p + q))
  end.

Definition fsub (x y : np_float) : np_float := fadd x (fneg y).

(** numpy division: a zero divisor gives an infinity or NaN, never a fault. *)
Definition fdiv (x y : np_float) : np_float :=
  match x, y with
  | NaN, _ | _, NaN => NaN
  | Inf _, Inf _ => NaN
  | Inf s, Fin q => Inf (xorb s (Qltb q 0))
  | Fin _, Inf _ => Fin 0
  | Fin p, Fin q =>
      if Qeq_bool q 0 then (if Qeq_bool p 0 then NaN else Inf (Qltb p 0))
      else Fin (Qred (p / q))
  end.

(** [x > 0] and [x < 0]; both are [False] on NaN. *)
Definition fgt0 (x : np_float) : bool :=
  match x with
  | NaN => false
  | Inf s => negb s
  | Fin q => Qltb 0 q
  end.

Definition flt0 (x : np_float) : bool :=
  match x with
  | NaN => false
  | Inf s => s
  | Fin q => Qltb q 0
  end.

(** [Series.diff()]: the first entry has no predecessor. *)
Definition diff (data : list np_float) : list np_float :=
  match data with
  | [] => []
  | _ :: rest => NaN :: zip_with fsub rest data
  end.

(** [s.where(cond, other)]: keep [s] where [cond] holds, else [other]. *)
Definition where_ (s : list np_float) (cond : list bool) (other : np_float) : list np_float :=
  zip_with (fun x (c : bool) => if c then x else other) s cond.

Definition fsum (l : list np_float) : np_float := fold_left fadd l (Fin 0).

(** One window of [rolling(window).mean()]: the mean of the observations
    that are not NaN, provided there are at least [min_periods] of them. *)
Definition window_mean (min_periods : nat) (w : list np_float) : np_float :=
  let obs := filter (fun x => isnan x = false) w in
  let nobs := length obs in
  if (min_periods <=? nobs)%nat && (0 <? nobs)%nat
  then fdiv (fsum obs) (Fin (inject_Z (Z.of_nat nobs)))
  else NaN.

(** The rows [i - window + 1 .. i], cut at the start of the column. *)
Definition window_at {A} (window i : nat) (s : list A) : list A :=
  drop (i + 1 - window) (take (i + 1) s).

(** [s.rolling(window=window).mean()], with [min_periods] at its default,
    the window size. *)
Definition rolling_mean (window : nat) (s : list np_float) : list np_float :=
  (fun i => window_mean window (window_at window i s)) <$> seq 0 (length s).

(** ** calculate_rsi *)

Definition gain_ma (data : list np_float) (window : nat) : list np_float :=
  let delta := diff data in
  rolling_mean window (where_ delta (fgt0 <$> delta) (Fin 0)).

Definition loss_ma (data : list np_float) (window : nat) : list np_float :=
  let delta := diff data in
  rolling_mean window (fneg <$> where_ delta (flt0 <$> delta) (Fin 0)).

Definition calculate_rsi (data : list np_float) (window : nat) : list np_float :=
  let gain := gain_ma data window in
  let loss := loss_ma data window in
  let rs := zip_with fdiv gain loss in
  (fun r => fsub (Fin 100) (fdiv (Fin 100) (fadd (Fin 1) r))) <$> rs.

(** ** get_data *)

(** One row of [stock.history], and one row of [hist] once the RSI column
    is attached. *)
Record bar := { Date : Z; Close : np_float }.

Record hist_row := { row_bar : bar; row_RSI : np_float }.

Record summary := {
  Ticker : string;
  Price : pyval;
  RevGrowth : pyval;
  FCF : pyval;
  Margin : pyval;
  Target : pyval;
  DCF : option Q;
  RSI : np_float;
  Description : pyval
}.

(** [hist['RSI'] = ...]: the column is aligned with the rows. *)
Definition with_rsi (hist : list bar) : list hist_row :=
  zip_with (fun b r => {| row_bar := b; row_RSI := r |})
           hist (calculate_rsi (Close <$> hist) 14).

(** [col.iloc[-1]] *)
Definition iloc_last (col : list np_float) : result np_float := index_last col.

(** [hist.dropna(subset=['RSI'])] *)
Definition dropna (hist : list hist_row) : list hist_row :=
  filter (fun r => isnan (row_RSI r) = false) hist.

(** The body of the [try] block, given what the fetcher returned: [info]
    is [stock.info] and [history] is [stock.history(period="2y")]. *)
Definition get_data_try (ticker : string) (info : gmap string pyval) (history : list bar)
  : result (option (summary * list hist_row)) :=
  if bool_decide (info !! "currentPrice" = None) then Ok None
  else if bool_decide (history = []) then Ok None
  else
    let hist := with_rsi history in
    let rsi_col := row_RSI <$> hist in
    rsi ← (if negb (bool_decide (rsi_col = [])) then iloc_last rsi_col else Ok (Fin 50));
    let data := {|
      Ticker := ticker;
      Price := info_get_or info "currentPrice" (PInt 0);
      RevGrowth := info_get_or info "revenueGrowth" (PInt 0);
      FCF := info_get_or info "freeCashflow" (PInt 0);
      Margin := info_get_or info "profitMargins" (PInt 0);
      Target := info_get_or info "targetMeanPrice" (PInt 0);
      DCF := calculate_dcf info;
      RSI := rsi;
      Description := info_get_or info "longBusinessSummary" (PStr "Description not available.")
    |} in
    let clean_hist := dropna hist in
    Ok (Some (data, clean_hist)).

Definition get_data (ticker : string) (info : gmap string pyval) (history : list bar)
  : option (summary * list hist_row) :=
  match get_data_try ticker info history with
  | Ok v => v
  | Raise _ => None
  end.

(** ** Raw news items *)

(** The values found in a raw news record: [None], a string, or a nested
    dict.  Any field may be missing or of the wrong one of these types. *)
#[warnings="-register-all"]
Inductive nval :=
| NNone
| NStr (s : string)
| NDict (d : gmap string nval).

(** [bool(v)] *)
Definition ntruthy (v : nval) : bool :=
  match v with
  | NNone => false
  | NStr s => negb (String.eqb s "")
  | NDict d => negb (size d =? 0)%nat
  end.

(** [isinstance(v, dict)] *)
Definition is_dict (v : nval) : bool :=
  match v with NDict _ => true | _ => false end.

(** [v.get(key, dflt)]; only a dict has [get]. *)
Definition get_or (v : nval) (key : string) (dflt : nval) : result nval :=
  match v with
  | NDict d => Ok (default dflt (d !! key))
  | NNone | NStr _ => Raise AttributeError
  end.

(** [v.get(key)] *)
Definition get (v : nval) (key : string) : result nval := get_or v key NNone.

(** [n.get('title') or (n.get('content', {}).get('title')
                        if isinstance(n.get('content'), dict) else None)] *)
Definition extract_title (n : nval) : result nval :=
  t ← get n "title";
  if ntruthy t then Ok t
  else
    c ← get n "content";
    if is_dict c then (c' ← get_or n "content" (NDict ∅); get c' "title")
    else Ok NNone.

(** The "safe link retrieval" block: the value of [link] after it. *)
Definition extract_link (n : nval) : result nval :=
  link ← get n "link";
  content ← get n "content";
  if negb (ntruthy link) && is_dict content then
    ct_url ← get content "clickThroughUrl";
    link ← (if is_dict ct_url then get ct_url "url" else Ok link);
    if negb (ntruthy link) then
      can_url ← get content "canonicalUrl";
      if is_dict can_url then get can_url "url" else Ok link
    else Ok link
  else Ok link.

Definition search_base : string := "https://www.google.com/search?q=".

(** [link if link else f"https://www.google.com/search?q={title}"] *)
Definition final_link (link : nval) (title : string) : nval :=
  if ntruthy link then link else NStr (search_base ++ title)%string.

(** ** The news loop *)

(** One entry of [display_news]. *)
Record headline := { title : string; link : nval }.

(** The four lists of the loop, and a ghost field: [examined] records, in
    order, the raw items on which title and link extraction was run. *)
Record loop_state := {
  scores : list Z;
  titles_found : list string;
  seen_titles : gset string;
  display_news : list headline;
  examined : list nval
}.

Definition init_state : loop_state :=
  {| scores := []; titles_found := []; seen_titles := ∅; display_news := [];
     examined := [] |}.

(** A title used as a set element must be hashable: a dict is not. *)
Definition hashable_title (t : nval) : result string :=
  match t with
  | NStr s => Ok s
  | NNone | NDict _ => Raise TypeError
  end.

(** [1 if label == 'positive' else -1 if label == 'negative' else 0] *)
Definition score_of_label (label : string) : Z :=
  if String.eqb label "positive" then 1
  else if String.eqb label "negative" then -1
  else 0.

Section NewsLoop.

(** The classifier: [sentiment_pipe t] is [res['label']] for
    [res = sentiment_pipe(t)[0]], or [None] when that expression raises. *)
Variable sentiment_pipe : string -> option string.

(** The body of the [for] loop after the cap test. *)
Definition loop_body (n : nval) (st : loop_state) : result loop_state :=
  let st := {| scores := scores st; titles_found := titles_found st;
               seen_titles := seen_titles st; display_news := display_news st;
               examined := examined st ++ [n] |} in
  t ← extract_title n;
  lnk ← extract_link n;
  if negb (ntruthy t) then Ok st
  else
    s ← hashable_title t;
    if bool_decide (s ∈ seen_titles st) then Ok st
    else
      let seen := seen_titles st ∪ {[ s ]} in
      let found := titles_found st ++ [s] in
      let fl := final_link lnk s in
      let shown :=
        if (length (display_news st) <? 5)%nat
        then display_news st ++ [{| title := s; link := fl |}]
        else display_news st in
      let scored :=
        match sentiment_pipe s with
        | Some label => scores st ++ [score_of_label label]
        | None => scores st
        end in
      Ok {| scores := scored; titles_found := found; seen_titles := seen;
            display_news := shown; examined := examined st |}.

(** [for n in news_list: if len(titles_found) >= 20: break; ...] *)
Fixpoint news_loop (news_list : list nval) (st : loop_state) : result loop_state :=
  match news_list with
  | [] => Ok st
  | n :: rest =>
      if (20 <=? length (titles_found st))%nat then Ok st
      else st' ← loop_body n st; news_loop rest st'
  end.

(** [if news_list: for ...] from the empty lists. *)
Definition normalize (news_list : list nval) : result loop_state :=
  news_loop news_list init_state.

End NewsLoop.

(** ** Sentiment aggregation *)

(** [sent_text]: the label shown, with the mean it is formatted from. *)
Inductive sentiment :=
| NoNewsData
| Positive (sent_val : Q)
| Negative (sent_val : Q)
| NeutralMixed.

Definition zsum (l : list Z) : Z := fold_left Z.add l 0%Z.

(** [sum(scores) / len(scores)] *)
Definition mean (scores : list Z) : Q :=
  Qred (inject_Z (zsum scores) / inject_Z (Z.of_nat (length scores))).

(** [(sent_val, sent_text)] after the [if not scores: ... else: ...]. *)
Definition aggregate (scores : list Z) : Q * sentiment :=
  match scores with
  | [] => (0%Q, NoNewsData)
  | _ :: _ =>
      let sent_val := mean scores in
      (sent_val,
       if Qltb 0.15 sent_val then Positive sent_val
       else if Qltb sent_val (-0.15) then Negative sent_val
       else NeutralMixed)
  end.

(** ** Reference definitions the statements compare the code with *)



(** A defined RSI value within the oscillator's range. *)
Definition in_rsi_range (x : np_float) : Prop :=
  exists q, x = Fin q /\ (0 <= q <= 100)%Q.

(** A value that is not NaN and not below zero. *)
Definition nonneg (x : np_float) : Prop :=
  match x with
  | NaN => False
  | Inf s => s = false
  | Fin q => (0 <= q)%Q
  end.

(** The candidates of the link fallback chain, in order: the direct link
    field, then [content.clickThroughUrl.url], then
    [content.canonicalUrl.url], the nested ones only through dicts. *)
Definition direct_field (n : nval) (key : string) : nval :=
  match n with
  | NDict d => default NNone (d !! key)
  | NNone | NStr _ => NNone
  end.

Definition nested_url (n : nval) (key : string) : nval :=
  match direct_field n "content" with
  | NDict c =>
      match default NNone (c !! key) with
      | NDict u => default NNone (u !! "url")
      | NNone | NStr _ => NNone
      end
  | NNone | NStr _ => NNone
  end.

Definition link_chain (n : nval) : list nval :=
  [direct_field n "link"; nested_url n "clickThroughUrl"; nested_url n "canonicalUrl"].

(** The first candidate that is truthy, else the search URL on the title
    as it stands. *)
Definition chain_link (n : nval) (t : string) : nval :=
  match List.find ntruthy (link_chain n) with
  | Some l => l
  | None => NStr (search_base ++ t)%string
  end.

(** Percent-encoding of a query parameter (RFC 3986): every character but
    the unreserved ones becomes [%XY]. *)
Definition unreserved (c : ascii) : bool :=
  let n := N_of_ascii c in
  ((65 <=? n) && (n <=? 90) || (97 <=? n) && (n <=? 122) || (48 <=? n) && (n <=? 57)
   || (n =? 45) || (n =? 46) || (n =? 95) || (n =? 126))%N.

Definition hex_digit (n : N) : ascii :=
  ascii_of_N (if (n <? 10)%N then 48 + n else 55 + n).

Fixpoint url_escape (s : string) : string :=
  match s with
  | EmptyString => EmptyString
  | String c s' =>
      if unreserved c then String c (url_escape s')
      else
        let n := N_of_ascii c in
        String "%" (String (hex_digit (n / 16)) (String (hex_digit (n mod 16)) (url_escape s')))
  end.

Definition is_defined (v : nval) : bool :=
  match v with NNone => false | _ => true end.

(** The link as the specification words it: the first candidate that is
    defined, else the search URL on the escaped title. *)
Definition spec_resolve_link (n : nval) (t : string) : nval :=
  match List.find is_defined (link_chain n) with
  | Some l => l
  | None => NStr (search_base ++ url_escape t)%string
  end.

(** The headline a raw item stands for, when its title resolves to a
    non-empty string. *)
Definition headline_of (n : nval) : option headline :=
  match extract_title n, extract_link n with
  | Ok (NStr s), Ok l =>
      if String.eqb s "" then None else Some {| title := s; link := final_link l s |}
  | _, _ => None
  end.

(** De-duplication by title, first occurrence kept, order kept. *)
Fixpoint first_occurrences (seen : list string) (hs : list headline) : list headline :=
  match hs with
  | [] => []
  | h :: hs' =>
      if bool_decide (title h ∈ seen) then first_occurrences seen hs'
      else h :: first_occurrences (title h :: seen) hs'
  end.

Definition deduplicated (news_list : list nval) : list headline :=
  first_occurrences [] (omap headline_of news_list).

(** The scores of the titles the classifier handled. *)
Definition scored (sentiment_pipe : string -> option string) (titles : list string) : list Z :=
  omap (fun t => score_of_label <$> sentiment_pipe t) titles.

(** Sample inputs. *)
Definition closes (l : list Z) : list np_float := (fun z => Fin (inject_Z z)) <$> l.

Definition bars (l : list Z) : list bar :=
  imap (fun i z => {| Date := Z.of_nat i; Close := Fin (inject_Z z) |}) l.

Definition rising14 : list Z := [1; 2; 3; 4; 5; 6; 7; 8; 9; 10; 11; 12; 13; 14]%Z.

Definition news_item (t l : string) : nval :=
  NDict {[ "title" := NStr t; "link" := NStr l ]}.

Definition quoted_info : gmap string pyval :=
  {[ "currentPrice" := PFloat 187.5; "freeCashflow" := PInt 1000000;
     "sharesOutstanding" := PInt 100000 ]}.

Definition repeated_headline : nval :=
  news_item "Fed holds rates" "https://a.example/1".

Definition same_title_twice : list nval :=
  [repeated_headline; news_item "Fed holds rates" "https://b.example/2"].

Definition always (label : string) : string -> option string := fun _ => Some label.
(** ** validate_ticker *)

Definition is_upper (c : ascii) : bool :=
  let n := N_of_ascii c in ((65 <=? n) && (n <=? 90))%N.

Definition newline : string := String (ascii_of_N 10) EmptyString.

(** What is left of a string after its leading run of letters A-Z. *)
Fixpoint after_letters (s : string) : string :=
  match s with
  | EmptyString => EmptyString
  | String c s' => if is_upper c then after_letters s' else s
  end.

(** [re.match(r'^[A-Z]+$', s)]: at least one letter A-Z, then the end of
    the string; [$] also matches just before a newline that ends the
    string. *)
Definition match_letters (s : string) : bool :=
  match s with
  | EmptyString => false
  | String c _ =>
      is_upper c
      && (String.eqb (after_letters s) "" || String.eqb (after_letters s) newline)
  end.

(** Strings stand for their UTF-8 bytes; [len] is reached only for a
    string of ASCII characters, where it is the number of bytes. *)
Definition validate_ticker (ticker : string) : bool * string :=
  if String.eqb ticker "" then (false, "Ticker field cannot be empty.")
  else if negb (match_letters ticker)
       then (false, "⚠️ Use English letters only (e.g., NVDA, AAPL).")
  else if (6 <? String.length ticker)%nat then (false, "⚠️ Ticker is too long.")
  else (true, "").

(** ** The DCF cell of the metrics row and of the report *)



(** ** Shapes of a price series *)

Definition all_upper (s : string) : Prop :=
  Forall (fun c => is_upper c = true) (list_ascii_of_string s).



(** Every close equal to the one before. *)
Definition flat (data : list np_float) : Prop :=
  forall j a b, data !! j = Some a -> data !! S j = Some b -> a = b.


(** The series with every close multiplied by [k]. *)
Definition fscale (k : Q) (x : np_float) : np_float :=
  match x with
  | NaN => NaN
  | Inf s => Inf s
  | Fin q => Fin (Qred (q * k))
  end.

Definition scaled (k : Q) (data : list np_float) : list np_float :=
  fscale k <$> data.

(** Finite values that are not below zero, resp. above zero. *)
Definition fin_nonneg (x : np_float) : Prop := exists q, x = Fin q /\ (0 <= q)%Q.

Definition fin_pos (x : np_float) : Prop := exists q, x = Fin q /\ (0 < q)%Q.

(** The two columns the moving averages are taken of. *)
Definition gains (data : list np_float) : list np_float :=
  where_ (diff data) (fgt0 <$> diff data) (Fin 0).

Definition losses (data : list np_float) : list np_float :=
  fneg <$> where_ (diff data) (flt0 <$> diff data) (Fin 0).


(** * Proofs *)

(** ** Comparisons on rationals *)

Lemma Qltb_true (a b : Q) : Qltb a b = true <-> (a < b)%Q.
Proof.
  unfold Qltb. rewrite negb_true_iff. split.
  - intros H. apply Qnot_le_lt. intros Hle. apply Qle_bool_iff in Hle. congruence.
  - intros H. destruct (Qle_bool b a) eqn:E; [|reflexivity].
    apply Qle_bool_iff in E. exfalso. apply (Qlt_not_le _ _ H E).
Qed.

Lemma Qltb_false (a b : Q) : Qltb a b = false <-> (b <= a)%Q.
Proof.
  unfold Qltb. rewrite negb_false_iff. apply Qle_bool_iff.
Qed.

Lemma Qeq_bool_false (a b : Q) : Qeq_bool a b = false <-> ~ (a == b)%Q.
Proof.
  split.
  - intros H Heq. apply Qeq_bool_iff in Heq. congruence.
  - intros H. destruct (Qeq_bool a b) eqn:E; [|reflexivity].
    apply Qeq_bool_iff in E. contradiction.
Qed.

(** ** calculate_dcf *)

Lemma number_truthy (v : pyval) (q : Q) :
  number v = Some q -> truthy v = negb (Qeq_bool q 0).
Proof.
  destruct v as [|z|r|s]; simpl; intros H; try discriminate; injection H as <-.
  - f_equal. unfold Qeq_bool. simpl. rewrite Z.mul_1_r. reflexivity.
  - reflexivity.
Qed.

Lemma number_as_float (v : pyval) (q : Q) : number v = Some q -> as_float v = Ok q.
Proof.
  destruct v; simpl; intros H; try discriminate; injection H as <-; reflexivity.
Qed.

Lemma not_number_as_float (v : pyval) : number v = None -> as_float v = Raise TypeError.
Proof. destruct v; simpl; intros H; try discriminate; reflexivity. Qed.

Lemma float_div_ok (a b : Q) : ~ (b == 0)%Q -> float_div a b = Ok (a / b)%Q.
Proof. intros H. unfold float_div. apply Qeq_bool_false in H. rewrite H. reflexivity. Qed.

(** What the [try] block computes, by the type and sign of the two fields. *)
Lemma dcf_try_cases (info : gmap string pyval) :
  let fcf := info_get info "freeCashflow" in
  let shares := info_get info "sharesOutstanding" in
  match number fcf with
  | None => dcf_try info = if truthy fcf then Raise TypeError else Ok None
  | Some f =>
      if Qle_bool f 0 then dcf_try info = Ok None
      else match number shares with
           | None => dcf_try info = if truthy shares then Raise TypeError else Ok None
           | Some s =>
               if Qeq_bool s 0 then dcf_try info = Ok None
               else exists v, dcf_try info = Ok (Some v) /\ (v == dcf_closed_form f s)%Q
           end
  end.
Proof.
  intros fcf shares. unfold dcf_try. fold fcf shares.
  destruct (number fcf) as [f|] eqn:Hf.
  - rewrite (number_truthy _ _ Hf). unfold py_lt, py_mul, py_div.
    rewrite (number_as_float _ _ Hf).
    destruct (Qle_bool f 0) eqn:Hle.
    + destruct (Qeq_bool f 0) eqn:H0; [reflexivity|]. cbn.
      assert (Qltb f 0 = true) as ->; [|reflexivity].
      apply Qltb_true. apply Qle_bool_iff in Hle. apply Qeq_bool_false in H0.
      apply Qle_lteq in Hle. destruct Hle; [assumption|contradiction].
    + assert (Qeq_bool f 0 = false) as ->.
      { apply Qeq_bool_false. intros E. rewrite E in Hle. discriminate. }
      assert (Qltb f 0 = false) as Hn.
      { unfold Qltb. destruct (Qle_bool 0 f) eqn:E; [reflexivity|].
        exfalso. destruct (Qlt_le_dec 0 f) as [H|H].
        - apply Qlt_le_weak, Qle_bool_iff in H. congruence.
        - apply Qle_bool_iff in H. congruence. }
      cbn -[Qmult Qdiv Qplus Qpower Qminus float_div truthy]. rewrite Hn.
      cbn -[Qmult Qdiv Qplus Qpower Qminus float_div truthy].
      destruct (number shares) as [s|] eqn:Hs.
      * rewrite (number_truthy _ _ Hs), (number_as_float _ _ Hs).
        destruct (Qeq_bool s 0) eqn:Hs0; [reflexivity|].
        cbn -[Qmult Qdiv Qplus Qpower Qminus float_div].
        repeat (rewrite float_div_ok by (first [apply Qeq_bool_false; assumption
                                               | apply Qeq_bool_false; reflexivity]);
                cbn -[Qmult Qdiv Qplus Qpower Qminus float_div]).
        eexists; split; [reflexivity|].
        unfold dcf_closed_form, py_sum, growth, discount, terminal. cbn -[Qmult Qdiv Qplus Qpower Qminus].
        apply Qeq_bool_false in Hs0. repeat match goal with
               | |- context [Z.of_nat ?n] =>
                   let t := eval compute in (Z.of_nat n) in change (Z.of_nat n) with t
               end.
        field. assumption.
      * destruct (truthy shares) eqn:Ht. 
        -- rewrite (not_number_as_float _ Hs). cbn -[Qmult Qdiv Qplus Qpower Qminus float_div].
        repeat (rewrite float_div_ok by (apply Qeq_bool_false; reflexivity);
                cbn -[Qmult Qdiv Qplus Qpower Qminus float_div]). reflexivity.
        -- reflexivity.
  - unfold py_lt. rewrite (not_number_as_float _ Hf). destruct (truthy fcf); reflexivity.
Qed.



Lemma dcf_closed_form_linear (f s : Q) :
  ~ (s == 0)%Q -> (dcf_closed_form f s == f * (195648712 # 9150625) / s)%Q.
Proof. intros Hs. unfold dcf_closed_form. field. assumption. Qed.


Lemma calculate_dcf_value (info : gmap string pyval) (f s : Q) :
  number (info_get info "freeCashflow") = Some f ->
  number (info_get info "sharesOutstanding") = Some s ->
  (0 < f)%Q -> ~ (s == 0)%Q ->
  exists v, calculate_dcf info = Some v /\ (v == dcf_closed_form f s)%Q.
Proof.
  intros Hf Hs Hpos Hs0. pose proof (dcf_try_cases info) as H. cbv zeta in H.
  rewrite Hf, Hs in H.
  assert (Qle_bool f 0 = false) as Hle.
  { destruct (Qle_bool f 0) eqn:E; [|reflexivity]. apply Qle_bool_iff in E.
    exfalso. apply (Qlt_not_le _ _ Hpos E). }
  rewrite Hle in H. apply Qeq_bool_false in Hs0. rewrite Hs0 in H.
  destruct H as (v & Hv & Heq). exists v. unfold calculate_dcf. rewrite Hv. auto.
Qed.




(** The [except] branch is live: a string in the cash-flow field makes the
    comparison raise, and the caller still gets [None]. *)
Example calculate_dcf_type_error :
  dcf_try (fundamentals (PStr "n/a") (PInt 100000)) = Raise TypeError
  /\ calculate_dcf (fundamentals (PStr "n/a") (PInt 100000)) = None.
Proof. split; reflexivity. Qed.




(** ** Columns: lengths and lookups *)

Lemma diff_length (data : list np_float) : length (diff data) = length data.
Proof.
  destruct data as [|x rest]; [reflexivity|]. simpl. f_equal.
  rewrite length_zip_with. simpl. lia.
Qed.

Lemma where_length (s : list np_float) (cond : list bool) (other : np_float) :
  length cond = length s -> length (where_ s cond other) = length s.
Proof. intros H. unfold where_. rewrite length_zip_with. lia. Qed.

Lemma rolling_mean_length (window : nat) (s : list np_float) :
  length (rolling_mean window s) = length s.
Proof. unfold rolling_mean. rewrite length_fmap, length_seq. reflexivity. Qed.

Lemma rolling_mean_lookup (window : nat) (s : list np_float) (i : nat) :
  i < length s ->
  rolling_mean window s !! i = Some (window_mean window (window_at window i s)).
Proof.
  intros Hi. unfold rolling_mean. rewrite list_lookup_fmap, lookup_seq_lt by assumption.
  reflexivity.
Qed.

Lemma gain_ma_length (data : list np_float) (window : nat) :
  length (gain_ma data window) = length data.
Proof.
  unfold gain_ma. rewrite rolling_mean_length, where_length, diff_length; [reflexivity|].
  apply length_fmap.
Qed.

Lemma loss_ma_length (data : list np_float) (window : nat) :
  length (loss_ma data window) = length data.
Proof.
  unfold loss_ma. rewrite rolling_mean_length, length_fmap, where_length, diff_length;
    [reflexivity|]. apply length_fmap.
Qed.

Lemma calculate_rsi_length (data : list np_float) (window : nat) :
  length (calculate_rsi data window) = length data.
Proof.
  unfold calculate_rsi. rewrite length_fmap, length_zip_with, gain_ma_length, loss_ma_length.
  lia.
Qed.

Lemma calculate_rsi_lookup (data : list np_float) (window i : nat) (x : np_float) :
  calculate_rsi data window !! i = Some x <->
  exists g l, gain_ma data window !! i = Some g /\ loss_ma data window !! i = Some l
              /\ x = fsub (Fin 100) (fdiv (Fin 100) (fadd (Fin 1) (fdiv g l))).
Proof.
  unfold calculate_rsi. rewrite list_lookup_fmap, lookup_zip_with.
  destruct (gain_ma data window !! i) as [g|]; simpl.
  - destruct (loss_ma data window !! i) as [l|]; simpl.
    + split.
      * intros [= <-]. eauto.
      * intros (g' & l' & [= <-] & [= <-] & ->). reflexivity.
    + split; [discriminate|]. intros (? & ? & _ & ? & _). discriminate.
  - split; [discriminate|]. intros (? & ? & ? & _). discriminate.
Qed.

(** ** The window has to fill *)

Lemma window_at_length {A} (window i : nat) (s : list A) :
  length (window_at window i s) <= i + 1.
Proof. unfold window_at. rewrite length_drop, length_take. lia. Qed.

Lemma window_mean_short (min_periods : nat) (w : list np_float) :
  length w < min_periods -> window_mean min_periods w = NaN.
Proof.
  intros H. unfold window_mean.
  pose proof (length_filter (fun x => isnan x = false) w) as Hf.
  destruct (min_periods <=? _)%nat eqn:E; [|reflexivity].
  apply Nat.leb_le in E. lia.
Qed.

Lemma rolling_mean_unfilled (window : nat) (s : list np_float) (i : nat) :
  i + 1 < window -> i < length s -> rolling_mean window s !! i = Some NaN.
Proof.
  intros Hw Hi. rewrite rolling_mean_lookup by assumption. f_equal.
  apply window_mean_short. pose proof (window_at_length window i s). lia.
Qed.

Lemma calculate_rsi_unfilled (data : list np_float) (window i : nat) :
  i + 1 < window -> i < length data -> calculate_rsi data window !! i = Some NaN.
Proof.
  intros Hw Hi. apply calculate_rsi_lookup.
  assert (i < length (gain_ma data window)) as Hg by (rewrite gain_ma_length; assumption).
  assert (i < length (loss_ma data window)) as Hl by (rewrite loss_ma_length; assumption).
  apply lookup_lt_is_Some in Hl. destruct Hl as [l Hl].
  exists NaN, l. split; [|split; [assumption|reflexivity]].
  unfold gain_ma. apply rolling_mean_unfilled; [assumption|].
  rewrite where_length, diff_length; [assumption | apply length_fmap].
Qed.

(** ** Gains, losses and their means are never negative *)

Lemma fadd_nonneg (x y : np_float) : nonneg x -> nonneg y -> nonneg (fadd x y).
Proof.
  destruct x as [|s|p], y as [|t|q]; simpl; try tauto.
  - intros -> ->. reflexivity.
  - intros Hp Hq. rewrite Qred_correct.
    replace 0%Q with (0 + 0)%Q by reflexivity. apply Qplus_le_compat; assumption.
Qed.

Lemma fsum_nonneg (l : list np_float) : Forall nonneg l -> nonneg (fsum l).
Proof.
  unfold fsum. assert (nonneg (Fin 0)) as H0 by (simpl; apply Qle_refl).
  revert H0. generalize (Fin 0). induction l as [|x l IH]; intros acc Hacc Hl; simpl.
  - assumption.
  - inversion Hl; subst. apply IH; [apply fadd_nonneg|]; assumption.
Qed.

Lemma fdiv_count_nonneg (x : np_float) (n : nat) :
  0 < n -> nonneg x -> nonneg (fdiv x (Fin (inject_Z (Z.of_nat n)))).
Proof.
  intros Hn Hx.
  assert (0 < inject_Z (Z.of_nat n))%Q as Hpos.
  { replace 0%Q with (inject_Z 0) by reflexivity. rewrite <- Zlt_Qlt. lia. }
  assert (Qltb (inject_Z (Z.of_nat n)) 0 = false) as Hlt.
  { apply Qltb_false. apply Qlt_le_weak. assumption. }
  assert (Qeq_bool (inject_Z (Z.of_nat n)) 0 = false) as Hne.
  { apply Qeq_bool_false. intros E. rewrite E in Hpos. discriminate. }
  destruct x as [|s|p]; simpl in *; try tauto.
  - rewrite Hlt. subst s. reflexivity.
  - rewrite Hne. simpl. rewrite Qred_correct. apply Qle_shift_div_l; [assumption|].
    rewrite Qmult_0_l. assumption.
Qed.

Lemma window_mean_nonneg (min_periods : nat) (w : list np_float) :
  Forall nonneg w ->
  window_mean min_periods w = NaN \/ nonneg (window_mean min_periods w).
Proof.
  intros Hw. unfold window_mean.
  destruct (_ && _) eqn:E; [right | left; reflexivity].
  apply andb_true_iff in E. destruct E as [_ E]. apply Nat.ltb_lt in E.
  apply fdiv_count_nonneg; [assumption|]. apply fsum_nonneg.
  rewrite Forall_forall in Hw |- *. intros x Hx.
  apply list_elem_of_filter in Hx. apply Hw, Hx.
Qed.

Lemma gains_nonneg (delta : list np_float) :
  Forall nonneg (where_ delta (fgt0 <$> delta) (Fin 0)).
Proof.
  apply Forall_lookup. intros i x. unfold where_.
  rewrite lookup_zip_with, list_lookup_fmap.
  destruct (delta !! i) as [d|]; simpl; [|discriminate].
  intros [= <-]. destruct d as [|s|q]; simpl; try apply Qle_refl.
  - destruct s; simpl; [apply Qle_refl | reflexivity].
  - destruct (Qltb 0 q) eqn:E; simpl; [|apply Qle_refl].
    apply Qltb_true in E. apply Qlt_le_weak. assumption.
Qed.

Lemma losses_nonneg (delta : list np_float) :
  Forall nonneg (fneg <$> where_ delta (flt0 <$> delta) (Fin 0)).
Proof.
  apply Forall_lookup. intros i x. unfold where_.
  rewrite list_lookup_fmap, lookup_zip_with, list_lookup_fmap.
  destruct (delta !! i) as [d|]; simpl; [|discriminate].
  intros [= <-]. destruct d as [|s|q]; simpl; try (vm_compute; discriminate).
  - destruct s; simpl; [reflexivity | vm_compute; discriminate].
  - destruct (Qltb q 0) eqn:E; simpl; [|vm_compute; discriminate].
    apply Qltb_true in E. rewrite Qred_correct.
    apply Qlt_le_weak. apply (Qopp_lt_compat q 0) in E. exact E.
Qed.

Lemma window_at_Forall {A} (P : A -> Prop) (window i : nat) (s : list A) :
  Forall P s -> Forall P (window_at window i s).
Proof. intros H. unfold window_at. apply Forall_drop, Forall_take. assumption. Qed.

Lemma rolling_mean_nonneg (window : nat) (s : list np_float) (i : nat) (x : np_float) :
  Forall nonneg s -> rolling_mean window s !! i = Some x -> x = NaN \/ nonneg x.
Proof.
  intros Hs Hx. pose proof (lookup_lt_Some _ _ _ Hx) as Hi.
  rewrite rolling_mean_length in Hi. rewrite rolling_mean_lookup in Hx by assumption.
  injection Hx as <-. apply window_mean_nonneg, window_at_Forall. assumption.
Qed.

Lemma gain_ma_nonneg (data : list np_float) (window i : nat) (g : np_float) :
  gain_ma data window !! i = Some g -> g = NaN \/ nonneg g.
Proof. apply rolling_mean_nonneg, gains_nonneg. Qed.

Lemma loss_ma_nonneg (data : list np_float) (window i : nat) (l : np_float) :
  loss_ma data window !! i = Some l -> l = NaN \/ nonneg l.
Proof. apply rolling_mean_nonneg, losses_nonneg. Qed.

(** ** The RSI formula *)

Lemma fdiv_nonneg (g l : np_float) :
  nonneg g -> nonneg l -> fdiv g l = NaN \/ nonneg (fdiv g l).
Proof.
  destruct g as [|s|p], l as [|t|q]; simpl; try tauto.
  - intros -> Hq. right. assert (Qltb q 0 = false) as ->; [|reflexivity].
    apply Qltb_false. assumption.
  - intros _ _. right. apply Qle_refl.
  - intros Hp Hq. destruct (Qeq_bool q 0) eqn:Eq.
    + destruct (Qeq_bool p 0); [left; reflexivity|]. right. simpl.
      apply Qltb_false. assumption.
    + right. simpl. rewrite Qred_correct. apply Qeq_bool_false in Eq.
      apply Qle_shift_div_l.
      * apply Qle_lteq in Hq. destruct Hq as [Hq|Hq]; [assumption|].
        exfalso. apply Eq. symmetry. assumption.
      * rewrite Qmult_0_l. assumption.
Qed.

Lemma rsi_of_ratio_range (rs : np_float) :
  nonneg rs -> in_rsi_range (fsub (Fin 100) (fdiv (Fin 100) (fadd (Fin 1) rs))).
Proof.
  destruct rs as [|s|r]; simpl; try tauto.
  - intros ->. simpl. eexists. split; [reflexivity|]. split; vm_compute; discriminate.
  - intros Hr. assert (1 <= Qred (1 + r))%Q as H1.
    { rewrite Qred_correct. lra. }
    set (y := Qred (1 + r)) in *.
    assert (0 < y)%Q as Hpos by lra.
    assert (Qeq_bool y 0 = false) as ->.
    { apply Qeq_bool_false. intros E. rewrite E in Hpos. discriminate. }
    assert (0 <= 100 / y)%Q as Hlo.
    { apply Qle_shift_div_l; [assumption|]. lra. }
    assert (100 / y <= 100)%Q as Hhi.
    { apply Qle_shift_div_r; [assumption|]. lra. }
    unfold fsub. simpl. eexists. split; [reflexivity|].
    rewrite !Qred_correct. split; lra.
Qed.

Lemma rsi_formula_range (g l : np_float) :
  g = NaN \/ nonneg g -> l = NaN \/ nonneg l ->
  let x := fsub (Fin 100) (fdiv (Fin 100) (fadd (Fin 1) (fdiv g l))) in
  x = NaN \/ in_rsi_range x.
Proof.
  intros [-> | Hg]; [left; reflexivity|].
  intros [-> | Hl]; [left; destruct g; reflexivity|].
  destruct (fdiv_nonneg g l Hg Hl) as [E | Hrs].
  - left. simpl. rewrite E. reflexivity.
  - right. apply rsi_of_ratio_range. assumption.
Qed.

(** ** The RSI column of [get_data] *)

Lemma with_rsi_column (history : list bar) :
  row_RSI <$> with_rsi history = calculate_rsi (Close <$> history) 14.
Proof.
  unfold with_rsi. apply fmap_zip_with_r; [reflexivity|].
  rewrite calculate_rsi_length, length_fmap. lia.
Qed.

Lemma with_rsi_length (history : list bar) : length (with_rsi history) = length history.
Proof.
  unfold with_rsi. rewrite length_zip_with, calculate_rsi_length, length_fmap. lia.
Qed.

Lemma filter_none {A} (P : A -> Prop) `{forall x, Decision (P x)} (l : list A) :
  Forall (fun x => ~ P x) l -> filter P l = [].
Proof.
  induction l as [|x l IH]; intros Hl; [reflexivity|].
  inversion Hl; subst. rewrite filter_cons, decide_False by assumption. auto.
Qed.

Lemma with_rsi_unfilled (history : list bar) :
  Forall (fun r => row_RSI r = NaN) (take 13 (with_rsi history)).
Proof.
  apply Forall_lookup. intros i r Hr.
  pose proof (lookup_lt_Some _ _ _ Hr) as Hi. rewrite length_take in Hi.
  rewrite lookup_take_lt in Hr by lia.
  assert ((row_RSI <$> with_rsi history) !! i = Some (row_RSI r)) as Hcol.
  { rewrite list_lookup_fmap, Hr. reflexivity. }
  rewrite with_rsi_column in Hcol.
  rewrite calculate_rsi_unfilled in Hcol.
  - congruence.
  - lia.
  - rewrite with_rsi_length in Hi. rewrite length_fmap. lia.
Qed.

Lemma dropna_unfilled (history : list bar) :
  dropna (with_rsi history) = dropna (drop 13 (with_rsi history)).
Proof.
  unfold dropna. rewrite <- (take_drop 13 (with_rsi history)) at 1.
  rewrite filter_app, filter_none; [reflexivity|].
  eapply Forall_impl; [apply with_rsi_unfilled|].
  intros r -> E. discriminate.
Qed.

Lemma dropna_in_range (history : list bar) :
  Forall (fun r => in_rsi_range (row_RSI r)) (dropna (with_rsi history)).
Proof.
  apply Forall_forall. intros r Hr. unfold dropna in Hr.
  apply list_elem_of_filter in Hr. destruct Hr as [Hnan Hr].
  apply list_elem_of_lookup in Hr. destruct Hr as [i Hr].
  assert ((row_RSI <$> with_rsi history) !! i = Some (row_RSI r)) as Hcol.
  { rewrite list_lookup_fmap, Hr. reflexivity. }
  rewrite with_rsi_column in Hcol. apply calculate_rsi_lookup in Hcol.
  destruct Hcol as (g & l & Hg & Hl & Hx).
  destruct (rsi_formula_range g l) as [E | Hrange].
  - eapply gain_ma_nonneg. eassumption.
  - eapply loss_ma_nonneg. eassumption.
  - rewrite <- Hx in E. rewrite E in Hnan. discriminate.
  - rewrite Hx. assumption.
Qed.

(** C5 (as stated) fails: on fourteen rising closes with the window at 14,
    the entry at index 13 is one of the first [window] entries and is
    defined. *)
Lemma calculate_rsi_entry_13_defined :
  14 <= length (closes rising14)
  /\ ~ (forall i, i < 14 -> calculate_rsi (closes rising14) 14 !! i = Some NaN).
Proof.
  split; [vm_compute; lia|]. intros H. specialize (H 13 ltac:(lia)).
  vm_compute in H. discriminate.
Qed.

(** C5 (amended): every RSI value that is defined lies in [0,100]; the
    first [window - 1] entries are undefined; the cleaned frame of
    [get_data] leaves out the first 13 rows and every row it keeps has an
    RSI in [0,100]. *)
Theorem calculate_rsi_range (data : list np_float) (window : nat) :
  (forall i x, calculate_rsi data window !! i = Some x -> x <> NaN -> in_rsi_range x)
  /\ (forall i, i + 1 < window -> i < length data ->
                calculate_rsi data window !! i = Some NaN)
  /\ (forall history : list bar,
         dropna (with_rsi history) = dropna (drop 13 (with_rsi history))
         /\ Forall (fun r => in_rsi_range (row_RSI r)) (dropna (with_rsi history))).
Proof.
  split; [|split].
  - intros i x Hx Hnan. apply calculate_rsi_lookup in Hx.
    destruct Hx as (g & l & Hg & Hl & ->).
    destruct (rsi_formula_range g l) as [E | Hrange].
    + eapply gain_ma_nonneg. eassumption.
    + eapply loss_ma_nonneg. eassumption.
    + contradiction.
    + assumption.
  - intros i. apply calculate_rsi_unfilled.
  - intros history. split; [apply dropna_unfilled | apply dropna_in_range].
Qed.

(** C6: where the loss average is 0 and the gain average is strictly
    positive, the RSI is exactly 100; the division yields an infinity, not
    a fault. *)
Theorem calculate_rsi_saturates (data : list np_float) (window i : nat)
    (g : np_float) (q : Q) :
  gain_ma data window !! i = Some g ->
  loss_ma data window !! i = Some (Fin q) ->
  (q == 0)%Q ->
  fgt0 g = true ->
  calculate_rsi data window !! i = Some (Fin 100).
Proof.
  intros Hg Hl Hq Hpos. apply calculate_rsi_lookup.
  exists g, (Fin q). split; [assumption|]. split; [assumption|].
  assert (Qeq_bool q 0 = true) as Hq0 by (apply Qeq_bool_iff; assumption).
  destruct g as [|s|p]; simpl in Hpos; [discriminate| |].
  - reflexivity.
  - apply Qltb_true in Hpos. cbn -[Qltb Qeq_bool Qred]. rewrite Hq0.
    assert (Qeq_bool p 0 = false) as ->.
    { apply Qeq_bool_false. intros E. rewrite E in Hpos. discriminate. }
    reflexivity.
Qed.

Lemma calculate_rsi_saturates_witness :
  calculate_rsi (closes [1; 2; 3]%Z) 2 !! 1 = Some (Fin 100).
Proof.
  apply (calculate_rsi_saturates _ 2 1 (Fin (1 # 2)) 0); reflexivity.
Defined.

(** C10 (as stated) fails: a 14-row history has fewer than 15 rows, and
    its headline RSI is the number 100, not NaN. *)
Lemma get_data_rsi_of_14_rows :
  bars rising14 <> [] /\ length (bars rising14) < 15
  /\ exists data clean, get_data "NVDA" quoted_info (bars rising14) = Some (data, clean)
                        /\ RSI data = Fin 100 /\ RSI data <> NaN.
Proof.
  split; [discriminate|]. split; [vm_compute; lia|].
  eexists _, _. split; [vm_compute; reflexivity|]. split; [reflexivity | discriminate].
Qed.

(** C10 (amended): the headline RSI of the summary is the last entry of the
    RSI column before [dropna]; for a non-empty history of fewer than 14
    rows it is NaN; the column is empty only for an empty history, which
    [get_data] answers with [None], so the fallback 50 is never taken. *)
Theorem get_data_headline_rsi (ticker : string) (info : gmap string pyval)
    (history : list bar) :
  (forall data clean, get_data ticker info history = Some (data, clean) ->
      history <> []
      /\ last (row_RSI <$> with_rsi history) = Some (RSI data)
      /\ clean = dropna (with_rsi history)
      /\ (length history < 14 -> RSI data = NaN))
  /\ (row_RSI <$> with_rsi history = [] <-> history = [])
  /\ get_data ticker info [] = None.
Proof.
  assert (row_RSI <$> with_rsi history = [] <-> history = []) as Hempty.
  { split; intros H.
    - apply (f_equal length) in H. rewrite length_fmap, with_rsi_length in H.
      destruct history; [reflexivity | discriminate].
    - subst. reflexivity. }
  split; [|split; [exact Hempty|]].
  - intros data clean. unfold get_data, get_data_try.
    case_bool_decide; [discriminate|]. case_bool_decide as Hh; [discriminate|].
    case_bool_decide as Hcol; [tauto|]. simpl. unfold iloc_last, index_last.
    destruct (last (row_RSI <$> with_rsi history)) as [x|] eqn:Hlast; simpl; [|discriminate].
    intros [= <- <-]. simpl. split; [assumption|]. split; [reflexivity|].
    split; [reflexivity|]. intros Hlen.
    rewrite last_lookup, with_rsi_column in Hlast.
    rewrite calculate_rsi_unfilled in Hlast.
    + congruence.
    + rewrite calculate_rsi_length, length_fmap. lia.
    + rewrite calculate_rsi_length, length_fmap. destruct history; [contradiction|simpl; lia].
  - unfold get_data, get_data_try. case_bool_decide; reflexivity.
Qed.

(** ** Link resolution *)

Ltac split_field :=
  match goal with
  | |- context [default NNone (?m !! ?k)] =>
      let v := fresh "v" in
      generalize (default NNone (m !! k)); intros v; destruct v; cbn -[ntruthy]
  end.

Ltac split_truthy :=
  match goal with
  | |- context [ntruthy ?v] =>
      let E := fresh "E" in destruct (ntruthy v) eqn:E; cbn -[ntruthy]
  end.

Lemma extract_link_chain (d : gmap string nval) (s : string) :
  exists lnk, extract_link (NDict d) = Ok lnk
              /\ final_link lnk s = chain_link (NDict d) s.
Proof.
  unfold extract_link, chain_link, link_chain, nested_url, direct_field, final_link, get, get_or.
  cbn -[ntruthy].
  generalize (default NNone (d !! "link")); intros lk.
  generalize (default NNone (d !! "content")); intros c.
  destruct (ntruthy lk) eqn:Hlk; cbn -[ntruthy].
  - eexists. split; [reflexivity|]. rewrite Hlk. reflexivity.
  - destruct c as [| |c]; cbn -[ntruthy];
      try (eexists; split; [reflexivity|]; rewrite Hlk; reflexivity).
    repeat split_field; repeat split_truthy;
      eexists; (split; [reflexivity|]); cbn -[ntruthy];
      repeat match goal with H : ntruthy _ = _ |- _ => rewrite H end;
      try reflexivity; try congruence;
      match goal with H : ntruthy NNone = true |- _ => discriminate H end.
Qed.

Lemma extract_title_dict (n t : nval) :
  extract_title n = Ok t -> exists d, n = NDict d.
Proof. destruct n; [discriminate | discriminate | eauto]. Qed.

(** C3 (as stated) fails: with no link anywhere, the search URL carries
    the title as it stands, space included, not its URL-escaped form. *)
Lemma search_link_not_escaped :
  let n := NDict {[ "title" := NStr "Fed holds rates" ]} in
  extract_title n = Ok (NStr "Fed holds rates")
  /\ exists lnk, extract_link n = Ok lnk
                 /\ final_link lnk "Fed holds rates"
                    = NStr "https://www.google.com/search?q=Fed holds rates"
                 /\ spec_resolve_link n "Fed holds rates"
                    = NStr "https://www.google.com/search?q=Fed%20holds%20rates"
                 /\ final_link lnk "Fed holds rates" <> spec_resolve_link n "Fed holds rates".
Proof.
  split; [reflexivity|]. exists NNone. split; [reflexivity|].
  split; [reflexivity|]. split; [reflexivity|]. discriminate.
Qed.

(** C3 (amended): for a raw item with a resolvable title the link is the
    first truthy value among the direct link field,
    [content.clickThroughUrl.url] and [content.canonicalUrl.url] (the
    nested ones read only through dicts); if none is truthy it is
    [https://www.google.com/search?q=] followed by the title unchanged. *)
Theorem link_resolution (n : nval) (s : string) :
  extract_title n = Ok (NStr s) ->
  s <> "" ->
  exists lnk, extract_link n = Ok lnk
              /\ final_link lnk s = chain_link n s
              /\ headline_of n = Some {| title := s; link := chain_link n s |}.
Proof.
  intros Ht Hs. destruct (extract_title_dict _ _ Ht) as [d ->].
  destruct (extract_link_chain d s) as (lnk & Hl & Hc).
  exists lnk. split; [assumption|]. split; [assumption|].
  unfold headline_of. rewrite Ht, Hl.
  apply String.eqb_neq in Hs. rewrite Hs, Hc. reflexivity.
Qed.

Lemma link_resolution_witness :
  let n := NDict {[ "content" :=
                      NDict {[ "title" := NStr "Chipmaker beats estimates";
                               "clickThroughUrl" := NNone;
                               "canonicalUrl" := NDict {[ "url" := NStr "https://example.com/a" ]} ]} ]} in
  exists lnk, extract_link n = Ok lnk
              /\ final_link lnk "Chipmaker beats estimates"
                 = chain_link n "Chipmaker beats estimates"
              /\ headline_of n = Some {| title := "Chipmaker beats estimates";
                                         link := chain_link n "Chipmaker beats estimates" |}.
Proof.
  intros n. apply (link_resolution n "Chipmaker beats estimates"); [reflexivity | discriminate].
Defined.

Example link_resolution_canonical :
  chain_link (NDict {[ "content" :=
                      NDict {[ "title" := NStr "Chipmaker beats estimates";
                               "clickThroughUrl" := NNone;
                               "canonicalUrl" := NDict {[ "url" := NStr "https://example.com/a" ]} ]} ]})
             "Chipmaker beats estimates" = NStr "https://example.com/a".
Proof. reflexivity. Qed.

(** ** De-duplication by first occurrence *)

Lemma first_occurrences_ext (seen1 seen2 : list string) (hs : list headline) :
  (forall t, t ∈ seen1 <-> t ∈ seen2) ->
  first_occurrences seen1 hs = first_occurrences seen2 hs.
Proof.
  revert seen1 seen2. induction hs as [|h hs IH]; intros seen1 seen2 Hext; simpl.
  - reflexivity.
  - rewrite (bool_decide_ext _ _ (Hext (title h))).
    case_bool_decide.
    + apply IH. assumption.
    + f_equal. apply IH. intros t. rewrite !elem_of_cons, Hext. reflexivity.
Qed.

Lemma first_occurrences_fresh (seen : list string) (hs : list headline) (h : headline) :
  h ∈ first_occurrences seen hs -> title h ∉ seen.
Proof.
  revert seen. induction hs as [|h0 hs IH]; intros seen; simpl.
  - intros H. inversion H.
  - case_bool_decide as Hin.
    + apply IH.
    + intros H. apply elem_of_cons in H. destruct H as [-> | H]; [assumption|].
      apply IH in H. intros Hs. apply H. apply elem_of_cons. auto.
Qed.

Lemma first_occurrences_NoDup (seen : list string) (hs : list headline) :
  NoDup (title <$> first_occurrences seen hs).
Proof.
  revert seen. induction hs as [|h hs IH]; intros seen; simpl.
  - constructor.
  - case_bool_decide as Hin; [apply IH|].
    rewrite fmap_cons. constructor; [|apply IH].
    intros H. apply list_elem_of_fmap in H. destruct H as (h' & Ht & H).
    apply first_occurrences_fresh in H. apply H. rewrite Ht. apply elem_of_cons. auto.
Qed.

Lemma first_occurrences_sublist (seen : list string) (hs : list headline) :
  first_occurrences seen hs `sublist_of` hs.
Proof.
  revert seen. induction hs as [|h hs IH]; intros seen; simpl.
  - constructor.
  - case_bool_decide; [apply sublist_cons | apply sublist_skip]; apply IH.
Qed.

Lemma first_occurrences_find (seen : list string) (hs : list headline) (h : headline) :
  h ∈ first_occurrences seen hs ->
  List.find (fun h' => String.eqb (title h') (title h)) hs = Some h.
Proof.
  revert seen. induction hs as [|h0 hs IH]; intros seen; simpl.
  - intros H. inversion H.
  - case_bool_decide as Hin.
    + intros H. pose proof (first_occurrences_fresh _ _ _ H) as Hfresh.
      destruct (String.eqb_spec (title h0) (title h)) as [E|_]; [|eapply IH; eassumption].
      exfalso. apply Hfresh. rewrite <- E. assumption.
    + intros H. apply elem_of_cons in H. destruct H as [-> | H].
      * rewrite String.eqb_refl. reflexivity.
      * pose proof (first_occurrences_fresh _ _ _ H) as Hfresh.
        destruct (String.eqb_spec (title h0) (title h)) as [E|_]; [|eapply IH; eassumption].
        exfalso. apply Hfresh. rewrite E. apply elem_of_cons. auto.
Qed.

(** ** The news loop *)

Section NewsLoopProofs.

Variable sentiment_pipe : string -> option string.

(** The effect of one pass through the loop body. *)
Lemma loop_body_cases (n : nval) (st st' : loop_state) :
  loop_body sentiment_pipe n st = Ok st' ->
  examined st' = examined st ++ [n]
  /\ (((headline_of n = None
        \/ exists h, headline_of n = Some h /\ title h ∈ seen_titles st)
       /\ titles_found st' = titles_found st
       /\ seen_titles st' = seen_titles st
       /\ display_news st' = display_news st
       /\ scores st' = scores st)
      \/ (exists h, headline_of n = Some h
                    /\ (title h ∉ seen_titles st)
                    /\ titles_found st' = titles_found st ++ [title h]
                    /\ seen_titles st' = (seen_titles st ∪ {[ title h ]})
                    /\ display_news st'
                       = (if (length (display_news st) <? 5)%nat
                          then display_news st ++ [h] else display_news st)
                    /\ scores st' = scores st ++ scored sentiment_pipe [title h])).
Proof.
  unfold loop_body, headline_of.
  destruct (extract_title n) as [t|e]; [|discriminate].
  destruct (extract_link n) as [lnk|e]; [|discriminate]. cbn -[ntruthy].
  destruct (ntruthy t) eqn:Ht; cbn -[ntruthy].
  - destruct t as [|s|d]; [discriminate| |discriminate]. cbn -[ntruthy].
    simpl in Ht. apply negb_true_iff in Ht. rewrite Ht.
    case_bool_decide as Hin.
    + intros [= <-]. simpl. split; [reflexivity|]. left. split; [|auto]. right. eauto.
    + intros [= <-]. simpl. split; [reflexivity|]. right.
      eexists. split; [reflexivity|]. simpl. split; [assumption|].
      split; [reflexivity|]. split; [reflexivity|]. split; [reflexivity|].
      unfold scored. simpl.
      destruct (sentiment_pipe s); simpl; [|rewrite app_nil_r]; reflexivity.
  - intros [= <-]. simpl. split; [reflexivity|]. left. split; [|auto]. left.
    destruct t as [|s|d]; try reflexivity.
    simpl in Ht. apply negb_false_iff in Ht. rewrite Ht. reflexivity.
Qed.

(** What the loop leaves behind, from any state it can be in. *)
Lemma news_loop_spec (news_list : list nval) :
  forall st st',
    news_loop sentiment_pipe news_list st = Ok st' ->
    (forall t, t ∈ seen_titles st <-> t ∈ titles_found st) ->
    length (titles_found st) <= 20 ->
    length (display_news st) = min 5 (length (titles_found st)) ->
    let fresh := first_occurrences (titles_found st) (omap headline_of news_list) in
    titles_found st' = take 20 (titles_found st ++ (title <$> fresh))
    /\ display_news st' = take 5 (display_news st ++ fresh)
    /\ (exists new, titles_found st' = titles_found st ++ new
                    /\ scores st' = scores st ++ scored sentiment_pipe new)
    /\ (exists k, examined st' = examined st ++ take k news_list
                  /\ k <= length news_list
                  /\ (k < length news_list -> length (titles_found st') = 20)
                  /\ length (titles_found st') <= length (titles_found st) + k).
Proof.
  induction news_list as [|n rest IH]; intros st st' Hloop Hseen Hcap Hshown;
    cbn [news_loop] in Hloop.
  - injection Hloop as <-. simpl. rewrite !app_nil_r.
    split; [rewrite take_ge; [reflexivity | lia]|].
    split; [rewrite take_ge; [reflexivity | lia]|].
    split; [exists []; rewrite !app_nil_r; auto|].
    exists 0. simpl. rewrite app_nil_r. repeat split; lia.
  - destruct (20 <=? length (titles_found st))%nat eqn:Hfull.
    + injection Hloop as <-. apply Nat.leb_le in Hfull.
      split; [rewrite take_app_le, take_ge by lia; reflexivity|].
      split; [rewrite take_app_le, take_ge by lia; reflexivity|].
      split; [exists []; rewrite !app_nil_r; auto|].
      exists 0. simpl. rewrite app_nil_r. repeat split; lia.
    + apply Nat.leb_gt in Hfull.
      destruct (loop_body sentiment_pipe n st) as [st1|e] eqn:Hbody; [|discriminate].
      cbn in Hloop. apply loop_body_cases in Hbody.
      destruct Hbody as [Hex [(Hskip & Ht & Hs & Hd & Hsc) | (h & Hh & Hnew & Ht & Hs & Hd & Hsc)]].
      * specialize (IH st1 st' Hloop). rewrite Ht, Hs, Hd, Hsc, Hex in IH.
        specialize (IH Hseen Hcap Hshown). cbv zeta in IH.
        assert (first_occurrences (titles_found st) (omap headline_of (n :: rest))
                = first_occurrences (titles_found st) (omap headline_of rest)) as ->.
        { simpl. destruct Hskip as [-> | (h & -> & Hin)]; [reflexivity|]. simpl.
          rewrite bool_decide_true; [reflexivity|]. apply Hseen. assumption. }
        destruct IH as (IHt & IHd & IHs & k & IHe & IHk & IHstop & IHlen).
        split; [assumption|]. split; [assumption|]. split; [assumption|].
        exists (S k). simpl. rewrite IHe, <- app_assoc. simpl.
        repeat split; lia.
      * assert (forall t, t ∈ seen_titles st1 <-> t ∈ titles_found st1) as Hseen1.
        { intros t. rewrite Hs, Ht, elem_of_union, elem_of_singleton, elem_of_app,
            list_elem_of_singleton, Hseen. reflexivity. }
        assert (length (titles_found st1) <= 20) as Hcap1.
        { rewrite Ht, length_app. simpl. lia. }
        assert (length (display_news st1) = min 5 (length (titles_found st1))) as Hshown1.
        { rewrite Hd, Ht. destruct (length (display_news st) <? 5)%nat eqn:E.
          - apply Nat.ltb_lt in E. rewrite !length_app. cbn [length]. lia.
          - apply Nat.ltb_ge in E. rewrite length_app. cbn [length]. lia. }
        specialize (IH st1 st' Hloop Hseen1 Hcap1 Hshown1). cbv zeta in IH.
        assert (first_occurrences (titles_found st) (omap headline_of (n :: rest))
                = h :: first_occurrences (titles_found st1) (omap headline_of rest)) as ->.
        { simpl. rewrite Hh. simpl. rewrite bool_decide_false.
          - f_equal. apply first_occurrences_ext. intros t.
            rewrite Ht, elem_of_cons, elem_of_app, list_elem_of_singleton. tauto.
          - intros Hin. apply Hnew, Hseen. assumption. }
        destruct IH as (IHt & IHd & (new & IHn & IHs) & k & IHe & IHk & IHstop & IHlen).
        split; [rewrite IHt, Ht, <- app_assoc; reflexivity|].
        split.
        { rewrite IHd, Hd. destruct (length (display_news st) <? 5)%nat eqn:E.
          - rewrite <- app_assoc. reflexivity.
          - apply Nat.ltb_ge in E. rewrite !take_app_le by lia. reflexivity. }
        split.
        { exists (title h :: new). rewrite IHn, IHs, Ht, Hsc, <- !app_assoc.
          split; [reflexivity|]. f_equal. unfold scored. simpl.
          destruct (sentiment_pipe (title h)); reflexivity. }
        exists (S k). simpl. rewrite IHe, Hex, <- app_assoc. simpl.
        rewrite Ht, length_app in IHlen. simpl in IHlen.
        repeat split; lia.
Qed.

End NewsLoopProofs.

(** ** The normalizer *)

Lemma normalize_spec (sentiment_pipe : string -> option string) (news_list : list nval)
    (st : loop_state) :
  normalize sentiment_pipe news_list = Ok st ->
  titles_found st = take 20 (title <$> deduplicated news_list)
  /\ display_news st = take 5 (deduplicated news_list)
  /\ scores st = scored sentiment_pipe (titles_found st)
  /\ (exists k, examined st = take k news_list
                /\ (k < length news_list -> length (titles_found st) = 20)
                /\ length (titles_found st) <= k <= length news_list).
Proof.
  intros Hn. unfold normalize in Hn.
  assert (forall t, t ∈ seen_titles init_state <-> t ∈ titles_found init_state) as Hseen.
  { intros t. simpl. rewrite elem_of_empty, elem_of_nil. reflexivity. }
  assert (length (titles_found init_state) <= 20) as Hcap by (simpl; lia).
  pose proof (news_loop_spec sentiment_pipe news_list init_state st Hn Hseen Hcap eq_refl)
    as H.
  simpl in H. destruct H as (Ht & Hd & (new & Hnew & Hs) & k & He & Hk & Hstop & Hlen).
  split; [assumption|]. split; [assumption|].
  split; [rewrite Hs, Hnew; reflexivity|].
  exists k. split; [assumption|]. split; [assumption|]. lia.
Qed.

Lemma scored_length (sentiment_pipe : string -> option string) (titles : list string) :
  length (scored sentiment_pipe titles) <= length titles.
Proof.
  unfold scored. induction titles as [|t titles IH]; [simpl; lia|].
  cbn [omap list_omap]. destruct (sentiment_pipe t); cbn [fmap option_fmap option_map length]; lia.
Qed.

Lemma scored_values (sentiment_pipe : string -> option string) (titles : list string) :
  Forall (fun z => z = (-1)%Z \/ z = 0%Z \/ z = 1%Z) (scored sentiment_pipe titles).
Proof.
  apply Forall_forall. intros z Hz. unfold scored in Hz.
  apply list_elem_of_omap in Hz. destruct Hz as (t & _ & Hz).
  destruct (sentiment_pipe t) as [label|]; [|discriminate]. injection Hz as <-.
  unfold score_of_label. repeat case_match; auto.
Qed.

Lemma scored_all (sentiment_pipe : string -> option string) (titles : list string)
    (wanted : string) :
  (forall t label, t ∈ titles -> sentiment_pipe t = Some label -> label = wanted) ->
  Forall (fun z => z = score_of_label wanted) (scored sentiment_pipe titles).
Proof.
  intros H. apply Forall_forall. intros z Hz. unfold scored in Hz.
  apply list_elem_of_omap in Hz. destruct Hz as (t & Ht & Hz).
  destruct (sentiment_pipe t) as [label|] eqn:E; [|discriminate]. injection Hz as <-.
  f_equal. eapply H; eassumption.
Qed.

(** C2 (as stated) fails: on a feed of 21 raw items that repeat one
    headline, extraction runs on all 21 of them. *)
Lemma normalize_examines_21_items :
  20 <= length (replicate 21 repeated_headline)
  /\ exists st, normalize (always "neutral") (replicate 21 repeated_headline) = Ok st
                /\ examined st = replicate 21 repeated_headline
                /\ ~ length (examined st) <= 20.
Proof.
  split; [simpl; lia|]. eexists. split; [vm_compute; reflexivity|].
  split; [reflexivity|]. simpl. lia.
Qed.

(** C2 (amended): the cap is on the titles collected, tested before a raw
    item is touched: extraction runs on a prefix of the feed, stops short
    of the end only once 20 distinct titles are collected, and at most 20
    titles are collected and scored; raw items that yield no new title do
    not count towards the cap. *)
Theorem normalize_cap (sentiment_pipe : string -> option string) (news_list : list nval)
    (st : loop_state) :
  normalize sentiment_pipe news_list = Ok st ->
  (exists k, examined st = take k news_list
             /\ (k < length news_list -> length (titles_found st) = 20))
  /\ length (titles_found st) <= 20
  /\ length (titles_found st) <= length (examined st)
  /\ length (scores st) <= 20.
Proof.
  intros Hn. apply normalize_spec in Hn.
  destruct Hn as (Ht & _ & Hs & k & He & Hstop & Hlen).
  assert (length (titles_found st) <= 20) as Hcap.
  { rewrite Ht, length_take. lia. }
  split; [eauto|]. split; [assumption|]. split.
  - rewrite He, length_take. lia.
  - rewrite Hs. pose proof (scored_length sentiment_pipe (titles_found st)). lia.
Qed.

Lemma normalize_cap_witness :
  exists st, normalize (always "neutral") (replicate 21 repeated_headline) = Ok st
             /\ length (titles_found st) <= 20
             /\ length (titles_found st) <= length (examined st).
Proof.
  eexists. split; [vm_compute; reflexivity|].
  split; eapply (normalize_cap (always "neutral") (replicate 21 repeated_headline));
    vm_compute; reflexivity.
Defined.

(** C7: the normalized headlines carry no title twice, keep the order of
    first appearance, and an entry is the first raw item with its title,
    link included. *)
Theorem normalize_deduplicates (sentiment_pipe : string -> option string)
    (news_list : list nval) (st : loop_state) :
  normalize sentiment_pipe news_list = Ok st ->
  NoDup (titles_found st)
  /\ NoDup (title <$> display_news st)
  /\ titles_found st = take 20 (title <$> deduplicated news_list)
  /\ display_news st = take 5 (deduplicated news_list)
  /\ titles_found st `sublist_of` (title <$> omap headline_of news_list)
  /\ display_news st `sublist_of` omap headline_of news_list
  /\ (forall h, h ∈ display_news st ->
        List.find (fun h' => String.eqb (title h') (title h)) (omap headline_of news_list)
        = Some h).
Proof.
  intros Hn. apply normalize_spec in Hn. destruct Hn as (Ht & Hd & _).
  pose proof (first_occurrences_NoDup [] (omap headline_of news_list)) as Hnd.
  pose proof (first_occurrences_sublist [] (omap headline_of news_list)) as Hsub.
  fold (deduplicated news_list) in Hnd, Hsub.
  split; [rewrite Ht; eapply sublist_NoDup; [exact Hnd | apply sublist_take]|].
  split; [rewrite Hd, fmap_take; eapply sublist_NoDup; [exact Hnd | apply sublist_take]|].
  split; [assumption|]. split; [assumption|].
  split; [rewrite Ht; etrans; [apply sublist_take | apply fmap_sublist; assumption]|].
  split; [rewrite Hd; etrans; [apply sublist_take | assumption]|].
  intros h Hh. rewrite Hd in Hh. apply (first_occurrences_find []).
  eapply elem_of_sublist; [exact Hh | apply sublist_take].
Qed.

Lemma normalize_deduplicates_witness :
  exists st, normalize (always "neutral") same_title_twice = Ok st
             /\ display_news st
                = [ {| title := "Fed holds rates"; link := NStr "https://a.example/1" |} ]
             /\ NoDup (titles_found st).
Proof.
  eexists. split; [vm_compute; reflexivity|]. split; [reflexivity|].
  eapply (normalize_deduplicates (always "neutral") same_title_twice).
  vm_compute; reflexivity.
Defined.

(** ** Sentiment aggregation *)

Lemma fold_add_shift (l : list Z) (a : Z) :
  fold_left Z.add l a = (a + fold_left Z.add l 0)%Z.
Proof.
  revert a. induction l as [|y l IH]; intros a; cbn [fold_left]; [lia|].
  rewrite (IH (a + y)%Z), (IH (0 + y)%Z). lia.
Qed.

Lemma zsum_cons (z : Z) (l : list Z) : zsum (z :: l) = (z + zsum l)%Z.
Proof. unfold zsum. simpl. apply fold_add_shift. Qed.

Lemma zsum_constant (c : Z) (l : list Z) :
  Forall (fun z => z = c) l -> zsum l = (c * Z.of_nat (length l))%Z.
Proof.
  induction l as [|z l IH]; intros Hl; [unfold zsum; simpl; lia|].
  inversion Hl; subst. rewrite zsum_cons, IH by assumption. simpl length. lia.
Qed.

Lemma mean_constant (c : Z) (l : list Z) :
  l <> [] -> Forall (fun z => z = c) l -> mean l = Qred (inject_Z c).
Proof.
  intros Hne Hl. unfold mean. apply Qred_complete. rewrite (zsum_constant c l Hl).
  assert (~ (inject_Z (Z.of_nat (length l)) == 0)%Q) as Hlen.
  { destruct l; [contradiction|]. simpl length. intros E.
    unfold Qeq in E. simpl in E. lia. }
  rewrite inject_Z_mult. field. assumption.
Qed.

Lemma aggregate_scored (scores : list Z) :
  scores <> [] ->
  (fst (aggregate scores)
   == inject_Z (zsum scores) / inject_Z (Z.of_nat (length scores)))%Q
  /\ snd (aggregate scores) <> NoNewsData.
Proof.
  intros Hne. destruct scores as [|z l]; [contradiction|].
  unfold aggregate. cbn [fst snd]. split.
  - unfold mean. apply Qred_correct.
  - destruct (Qltb 0.15 _); [discriminate|]. destruct (Qltb _ _); discriminate.
Qed.

Lemma aggregate_constant (c : Z) (scores : list Z) :
  scores <> [] -> Forall (fun z => z = c) scores ->
  aggregate scores = aggregate [c].
Proof.
  intros Hne Hl. pose proof (mean_constant c scores Hne Hl) as Hm.
  destruct scores as [|z l]; [contradiction|].
  unfold aggregate. rewrite Hm.
  assert (mean [c] = Qred (inject_Z c)) as ->; [|reflexivity].
  apply mean_constant; [discriminate|]. constructor; [reflexivity|constructor].
Qed.

(** C8: with no headline scored the aggregator reports "No News Data";
    otherwise the aggregate is the arithmetic mean of per-headline values
    in {-1, 0, +1}, exactly +1 when every scored headline is labelled
    positive and exactly -1 when every one is labelled negative. *)
Theorem sentiment_aggregate (sentiment_pipe : string -> option string)
    (news_list : list nval) (st : loop_state) :
  normalize sentiment_pipe news_list = Ok st ->
  scores st = scored sentiment_pipe (titles_found st)
  /\ Forall (fun z => z = (-1)%Z \/ z = 0%Z \/ z = 1%Z) (scores st)
  /\ (scores st = [] -> aggregate (scores st) = (0%Q, NoNewsData))
  /\ (scores st <> [] ->
      (fst (aggregate (scores st))
       == inject_Z (zsum (scores st)) / inject_Z (Z.of_nat (length (scores st))))%Q
      /\ snd (aggregate (scores st)) <> NoNewsData)
  /\ (scores st <> [] ->
      (forall t label, t ∈ titles_found st -> sentiment_pipe t = Some label ->
                       label = "positive") ->
      aggregate (scores st) = (1%Q, Positive 1))
  /\ (scores st <> [] ->
      (forall t label, t ∈ titles_found st -> sentiment_pipe t = Some label ->
                       label = "negative") ->
      aggregate (scores st) = ((-1)%Q, Negative (-1))).
Proof.
  intros Hn. apply normalize_spec in Hn. destruct Hn as (_ & _ & Hs & _).
  split; [assumption|].
  split; [rewrite Hs; apply scored_values|].
  split; [intros ->; reflexivity|].
  split; [apply aggregate_scored|].
  split; intros Hne Hall.
  - rewrite (aggregate_constant 1 (scores st)); [reflexivity | assumption|].
    rewrite Hs. apply (scored_all sentiment_pipe _ "positive"). assumption.
  - rewrite (aggregate_constant (-1) (scores st)); [reflexivity | assumption|].
    rewrite Hs. apply (scored_all sentiment_pipe _ "negative"). assumption.
Qed.

Lemma sentiment_aggregate_witness :
  exists st, normalize (always "positive") same_title_twice = Ok st
             /\ scores st = [1%Z]
             /\ (scores st <> [] ->
                 (forall t label, t ∈ titles_found st -> always "positive" t = Some label ->
                                  label = "positive") ->
                 aggregate (scores st) = (1%Q, Positive 1)).
Proof.
  eexists. split; [vm_compute; reflexivity|]. split; [reflexivity|].
  eapply (sentiment_aggregate (always "positive") same_title_twice).
  vm_compute; reflexivity.
Defined.

(** A headline the classifier fails on is skipped; with none scored the
    label is "No News Data". *)
Example sentiment_no_data :
  exists st, normalize (fun _ => None) same_title_twice = Ok st
             /\ titles_found st = ["Fed holds rates"]
             /\ scores st = []
             /\ aggregate (scores st) = (0%Q, NoNewsData).
Proof. eexists. split; [vm_compute; reflexivity|]. repeat split. Qed.

(** ** validate_ticker *)

Lemma all_upper_cons (c : ascii) (s : string) :
  all_upper (String c s) <-> is_upper c = true /\ all_upper s.
Proof. unfold all_upper. simpl. apply (Forall_cons (fun a => is_upper a = true)). Qed.

Lemma after_letters_split (s : string) :
  exists body, s = (body ++ after_letters s)%string /\ all_upper body.
Proof.
  induction s as [|c s IH]; simpl.
  - exists "". split; [reflexivity | constructor].
  - destruct (is_upper c) eqn:Hc.
    + destruct IH as (body & Hs & Hb). exists (String c body). split.
      * change (String c s = String c (body ++ after_letters s)%string). congruence.
      * apply all_upper_cons. auto.
    + exists "". split; [reflexivity | constructor].
Qed.

Lemma append_empty (s : string) : (s ++ "")%string = s.
Proof.
  induction s as [|c s IH]; [reflexivity|].
  change (String c (s ++ "")%string = String c s). rewrite IH. reflexivity.
Qed.

Lemma after_letters_length (s : string) :
  String.length (after_letters s) <= String.length s.
Proof.
  induction s as [|c s IH]; simpl; [lia|]. destruct (is_upper c); simpl; lia.
Qed.

Lemma after_letters_app (body rest : string) :
  all_upper body -> after_letters (body ++ rest) = after_letters rest.
Proof.
  induction body as [|c body IH]; simpl; intros Hb; [reflexivity|].
  apply all_upper_cons in Hb. destruct Hb as [Hc Hb]. rewrite Hc. auto.
Qed.

Lemma match_letters_spec (s : string) :
  match_letters s = true <->
  exists body, body <> "" /\ all_upper body /\ (s = body \/ s = (body ++ newline)%string).
Proof.
  split.
  - destruct s as [|c s]; [discriminate|]. unfold match_letters.
    intros H. apply andb_true_iff in H. destruct H as [Hc H].
    destruct (after_letters_split (String c s)) as (body & Hs & Hb).
    assert (body <> "") as Hne.
    { intros ->. cbn [String.append after_letters] in Hs. rewrite Hc in Hs.
      apply (f_equal String.length) in Hs. cbn [String.length] in Hs.
      change (S (String.length s) = String.length (after_letters s)) in Hs.
      pose proof (after_letters_length s). lia. }
    exists body. split; [assumption|]. split; [assumption|].
    apply orb_true_iff in H. destruct H as [H | H]; apply String.eqb_eq in H;
      rewrite H in Hs.
    + left. rewrite Hs. apply append_empty.
    + right. assumption.
  - intros (body & Hne & Hb & Hs).
    assert (after_letters s = "" \/ after_letters s = newline) as Hr.
    { destruct Hs as [-> | ->].
      - left. rewrite <- (append_empty body), after_letters_app by assumption.
        reflexivity.
      - right. rewrite after_letters_app by assumption. reflexivity. }
    destruct body as [|c body]; [contradiction|].
    apply all_upper_cons in Hb. destruct Hb as [Hc _].
    assert (exists s', s = String c s') as [s' ->].
    { destruct Hs as [-> | ->]; simpl; eauto. }
    unfold match_letters. rewrite Hc, andb_true_l.
    destruct Hr as [-> | ->]; reflexivity.
Qed.

(** X1: a ticker is accepted exactly when it is one to six letters A-Z,
    the sixth character possibly being a final newline in place of a
    letter; an accepted ticker comes with the empty message. *)
Theorem validate_ticker_accepts (ticker : string) :
  (fst (validate_ticker ticker) = true <->
   exists body, body <> "" /\ all_upper body
                /\ (ticker = body \/ ticker = (body ++ newline)%string)
                /\ String.length ticker <= 6)
  /\ (fst (validate_ticker ticker) = true <-> validate_ticker ticker = (true, "")).
Proof.
  unfold validate_ticker.
  destruct (String.eqb_spec ticker "") as [-> | Hne].
  { split; split; try discriminate. intros (body & Hb & _ & [E | E] & _).
    - congruence.
    - destruct body; [contradiction | discriminate]. }
  destruct (match_letters ticker) eqn:Hm; simpl negb; cbv iota.
  - apply match_letters_spec in Hm.
    destruct (6 <? String.length ticker)%nat eqn:Hlen; simpl.
    + apply Nat.ltb_lt in Hlen. split; split; try discriminate.
      intros (_ & _ & _ & _ & H). lia.
    + apply Nat.ltb_ge in Hlen. split; split; try reflexivity.
      intros _. destruct Hm as (body & H1 & H2 & H3). eauto.
  - split; split; try discriminate. intros (body & H1 & H2 & H3 & _).
    assert (match_letters ticker = true) as E by (apply match_letters_spec; eauto).
    congruence.
Qed.

(** ** More on calculate_dcf *)




(** X3: the valuation is per share: multiplying free cash flow and share
    count by the same positive factor leaves it unchanged. *)
Theorem calculate_dcf_split_invariant (info1 info2 : gmap string pyval)
    (f1 s1 f2 s2 k : Q) :
  number (info_get info1 "freeCashflow") = Some f1 ->
  number (info_get info1 "sharesOutstanding") = Some s1 ->
  number (info_get info2 "freeCashflow") = Some f2 ->
  number (info_get info2 "sharesOutstanding") = Some s2 ->
  (0 < f1)%Q -> ~ (s1 == 0)%Q ->
  (0 < k)%Q -> (f2 == k * f1)%Q -> (s2 == k * s1)%Q ->
  exists v1 v2, calculate_dcf info1 = Some v1 /\ calculate_dcf info2 = Some v2
                /\ (v2 == v1)%Q.
Proof.
  intros Hf1 Hs1 Hf2 Hs2 Hpos Hs0 Hk Ef Es.
  destruct (calculate_dcf_value info1 f1 s1 Hf1 Hs1 Hpos Hs0) as (v1 & Hv1 & E1).
  assert (0 < f2)%Q as Hpos2.
  { rewrite Ef. apply Qmult_lt_0_compat; assumption. }
  assert (~ (s2 == 0)%Q) as Hs20.
  { rewrite Es. intros Hz. apply Qmult_integral in Hz. destruct Hz as [Hz | Hz].
    - rewrite Hz in Hk. discriminate.
    - contradiction. }
  destruct (calculate_dcf_value info2 f2 s2 Hf2 Hs2 Hpos2 Hs20) as (v2 & Hv2 & E2).
  exists v1, v2. split; [assumption|]. split; [assumption|].
  rewrite E2, E1, !dcf_closed_form_linear, Ef, Es by assumption.
  field. split; [assumption|]. intros Hz. rewrite Hz in Hk. discriminate.
Qed.

Lemma calculate_dcf_split_invariant_witness :
  exists v1 v2,
    calculate_dcf (fundamentals (PInt 1000000) (PInt 100000)) = Some v1
    /\ calculate_dcf (fundamentals (PInt 2000000) (PInt 200000)) = Some v2
    /\ (v2 == v1)%Q.
Proof.
  apply (calculate_dcf_split_invariant _ _ 1000000 100000 2000000 200000 2);
    try reflexivity. discriminate.
Defined.


(** ** More on get_data *)

Lemma with_rsi_bars (history : list bar) : row_bar <$> with_rsi history = history.
Proof.
  unfold with_rsi. apply fmap_zip_with_l; [reflexivity|].
  rewrite calculate_rsi_length, length_fmap. lia.
Qed.

Lemma get_data_inv (ticker : string) (info : gmap string pyval) (history : list bar)
    (data : summary) (clean : list hist_row) :
  get_data ticker info history = Some (data, clean) ->
  info !! "currentPrice" <> None /\ history <> []
  /\ clean = dropna (with_rsi history)
  /\ Ticker data = ticker
  /\ Price data = info_get_or info "currentPrice" (PInt 0)
  /\ DCF data = calculate_dcf info.
Proof.
  unfold get_data, get_data_try.
  case_bool_decide as Hp; [discriminate|]. case_bool_decide as Hh; [discriminate|].
  destruct (if negb (bool_decide (row_RSI <$> with_rsi history = []))
            then iloc_last (row_RSI <$> with_rsi history) else Ok (Fin 50)) as [x|e];
    simpl; [|discriminate].
  intros [= <- <-]. simpl. auto 10.
Qed.


(** X6: the cleaned frame keeps rows of the history in their order, each
    with its date and close and an RSI in [0,100], and drops at least the
    first 13: a history of fewer than 14 rows leaves no row at all. *)
Theorem get_data_clean_hist (ticker : string) (info : gmap string pyval)
    (history : list bar) (data : summary) (clean : list hist_row) :
  get_data ticker info history = Some (data, clean) ->
  (row_bar <$> clean) `sublist_of` history
  /\ length clean <= length history - 13
  /\ (length history < 14 -> clean = []).
Proof.
  intros H.
  apply get_data_inv in H. destruct H as (_ & _ & -> & _).
  assert (length (dropna (with_rsi history)) <= length history - 13) as Hlen.
  { rewrite dropna_unfilled. unfold dropna.
    etrans; [apply length_filter|]. rewrite length_drop, with_rsi_length. lia. }
  split; [|split; [assumption|]].
  - rewrite <- (with_rsi_bars history) at 2. apply fmap_sublist. unfold dropna.
    apply sublist_filter.
  - intros Hshort. destruct (dropna (with_rsi history)); [reflexivity|]. simpl in Hlen. lia.
Qed.

Lemma get_data_clean_hist_witness :
  exists data clean,
    get_data "NVDA" quoted_info (bars rising14) = Some (data, clean)
    /\ (row_bar <$> clean) `sublist_of` bars rising14
    /\ length clean <= length (bars rising14) - 13.
Proof.
  eexists _, _. split; [vm_compute; reflexivity|].
  split; eapply (get_data_clean_hist "NVDA" quoted_info (bars rising14));
    vm_compute; reflexivity.
Defined.
(** ** Rising, falling and flat series *)

Lemma gain_ma_gains (data : list np_float) (window : nat) :
  gain_ma data window = rolling_mean window (gains data).
Proof. reflexivity. Qed.

Lemma loss_ma_losses (data : list np_float) (window : nat) :
  loss_ma data window = rolling_mean window (losses data).
Proof. reflexivity. Qed.



Lemma diff_lookup_0 (data : list np_float) (x : np_float) :
  diff data !! 0 = Some x -> x = NaN.
Proof. destruct data; simpl; [discriminate|]. intros [= <-]. reflexivity. Qed.

Lemma diff_lookup_S (data : list np_float) (j : nat) (x : np_float) :
  diff data !! S j = Some x ->
  exists a b, data !! j = Some a /\ data !! S j = Some b /\ x = fsub b a.
Proof.
  destruct data as [|d rest]; simpl; [discriminate|].
  rewrite lookup_zip_with. intros H.
  destruct (rest !! j) as [b|] eqn:Hb; simpl in H; [|discriminate].
  destruct ((d :: rest) !! j) as [a|] eqn:Ha; simpl in H; [|discriminate].
  injection H as <-. eauto.
Qed.

Lemma gains_lookup (data : list np_float) (j : nat) (x : np_float) :
  gains data !! j = Some x ->
  exists d, diff data !! j = Some d /\ x = if fgt0 d then d else Fin 0.
Proof.
  unfold gains, where_. rewrite lookup_zip_with, list_lookup_fmap.
  destruct (diff data !! j) as [d|]; simpl; [|discriminate]. intros [= <-]. eauto.
Qed.

Lemma losses_lookup (data : list np_float) (j : nat) (x : np_float) :
  losses data !! j = Some x ->
  exists d, diff data !! j = Some d /\ x = fneg (if flt0 d then d else Fin 0).
Proof.
  unfold losses, where_. rewrite list_lookup_fmap, lookup_zip_with, list_lookup_fmap.
  destruct (diff data !! j) as [d|]; simpl; [|discriminate]. intros [= <-]. eauto.
Qed.

Lemma Qred_zero (q : Q) : (q == 0)%Q -> Qred q = 0%Q.
Proof. intros H. apply (Qred_complete q 0) in H. exact H. Qed.

Lemma fsub_fin (p q : Q) : fsub (Fin q) (Fin p) = Fin (Qred (q + Qred (- p))).
Proof. reflexivity. Qed.


(** The sum of a window of finite values that are not negative. *)
Lemma fold_fadd_fin (l : list np_float) (p : Q) :
  Forall fin_nonneg l ->
  exists q, fold_left fadd l (Fin p) = Fin q /\ (p <= q)%Q
            /\ (Exists fin_pos l -> (p < q)%Q).
Proof.
  revert p. induction l as [|x l IH]; intros p Hl; simpl.
  - exists p. split; [reflexivity|]. split; [apply Qle_refl|].
    intros H. inversion H.
  - inversion Hl as [|? ? (r & -> & Hr) Hl']; subst. simpl.
    destruct (IH (Qred (p + r)) Hl') as (q & Hq & Hle & Hlt).
    rewrite Qred_correct in Hle. exists q. split; [assumption|]. split; [lra|].
    intros H. inversion H as [? ? (r' & E & Hr') | ? ? H']; subst.
    + injection E as ->. lra.
    + specialize (Hlt H'). rewrite Qred_correct in Hlt. lra.
Qed.

Lemma fold_fadd_zeros (l : list np_float) (p s : Q) :
  Forall (fun x => x = Fin 0) l -> fold_left fadd l (Fin p) = Fin s -> (s == p)%Q.
Proof.
  revert p. induction l as [|x l IH]; intros p Hl; simpl.
  - intros [= <-]. reflexivity.
  - inversion Hl; subst. simpl. intros Hs. apply IH in Hs; [|assumption].
    rewrite Hs, Qred_correct. ring.
Qed.

Lemma filter_all {A} (P : A -> Prop) `{forall x, Decision (P x)} (l : list A) :
  Forall P l -> filter P l = l.
Proof.
  induction l as [|x l IH]; intros Hl; [reflexivity|].
  inversion Hl; subst. rewrite filter_cons, decide_True by assumption.
  f_equal. auto.
Qed.

Lemma count_positive (n : nat) : 0 < n -> (0 < inject_Z (Z.of_nat n))%Q.
Proof.
  intros Hn. replace 0%Q with (inject_Z 0) by reflexivity. rewrite <- Zlt_Qlt. lia.
Qed.

Lemma window_mean_fin (min_periods : nat) (w : list np_float) :
  Forall fin_nonneg w -> min_periods <= length w -> 0 < length w ->
  exists q, window_mean min_periods w = Fin q /\ (0 <= q)%Q
            /\ (Exists fin_pos w -> (0 < q)%Q)
            /\ (Forall (fun x => x = Fin 0) w -> q = 0%Q).
Proof.
  intros Hw Hmin Hlen. unfold window_mean.
  rewrite filter_all.
  2:{ eapply Forall_impl; [exact Hw|]. intros x (q & -> & _). reflexivity. }
  assert ((min_periods <=? length w)%nat && (0 <? length w)%nat = true) as ->.
  { apply andb_true_iff. split; [apply Nat.leb_le | apply Nat.ltb_lt]; assumption. }
  destruct (fold_fadd_fin w 0 Hw) as (s & Hs & Hle & Hlt). unfold fsum. rewrite Hs.
  pose proof (count_positive _ Hlen) as Hn. simpl.
  assert (Qeq_bool (inject_Z (Z.of_nat (length w))) 0 = false) as ->.
  { apply Qeq_bool_false. intros E. rewrite E in Hn. discriminate. }
  eexists. split; [reflexivity|].
  split; [rewrite Qred_correct; apply Qle_shift_div_l; [assumption | lra]|].
  split.
  - intros H. specialize (Hlt H). rewrite Qred_correct.
    apply Qlt_shift_div_l; [assumption | lra].
  - intros Hz. apply Qred_zero.
    rewrite (fold_fadd_zeros w 0 s Hz Hs). unfold Qdiv. ring.
Qed.











Lemma flat_zero (data : list np_float) :
  flat data ->
  Forall (fun x => x = Fin 0) (gains data) /\ Forall (fun x => x = Fin 0) (losses data).
Proof.
  intros Hf.
  assert (forall j d, diff data !! j = Some d -> d = NaN \/ d = Fin 0) as Hd.
  { intros [|j] d H; [left; eapply diff_lookup_0; eassumption|].
    apply diff_lookup_S in H. destruct H as (a & b & Ha & Hb & ->).
    rewrite (Hf j a b Ha Hb). destruct b as [|s|q]; [left; reflexivity | left | right].
    - unfold fsub. simpl. destruct s; reflexivity.
    - rewrite fsub_fin. f_equal. apply Qred_zero. rewrite Qred_correct. ring. }
  split; apply Forall_lookup; intros j x Hx.
  - apply gains_lookup in Hx. destruct Hx as (d & Hdj & ->).
    destruct (Hd j d Hdj) as [-> | ->]; reflexivity.
  - apply losses_lookup in Hx. destruct Hx as (d & Hdj & ->).
    destruct (Hd j d Hdj) as [-> | ->]; reflexivity.
Qed.

Lemma window_mean_zeros (min_periods : nat) (w : list np_float) :
  Forall (fun x => x = Fin 0) w ->
  window_mean min_periods w = Fin 0 \/ window_mean min_periods w = NaN.
Proof.
  intros Hz.
  assert (Forall fin_nonneg w) as Hw.
  { eapply Forall_impl; [exact Hz|]. intros y ->. exists 0%Q.
    split; [reflexivity | apply Qle_refl]. }
  destruct (decide (min_periods <= length w /\ 0 < length w)) as [[H1 H2] | Hno].
  - left. destruct (window_mean_fin min_periods w Hw H1 H2) as (q & Hq & _ & _ & H0).
    rewrite Hq, (H0 Hz). reflexivity.
  - right. unfold window_mean. rewrite filter_all.
    2:{ eapply Forall_impl; [exact Hz|]. intros y ->. reflexivity. }
    destruct ((min_periods <=? length w)%nat && (0 <? length w)%nat) eqn:E; [|reflexivity].
    exfalso. apply Hno. apply andb_true_iff in E. destruct E as [E1 E2].
    apply Nat.leb_le in E1. apply Nat.ltb_lt in E2. auto.
Qed.

Lemma rolling_mean_zeros (window : nat) (s : list np_float) (i : nat) (x : np_float) :
  Forall (fun y => y = Fin 0) s -> rolling_mean window s !! i = Some x ->
  x = Fin 0 \/ x = NaN.
Proof.
  intros Hs Hx. pose proof (lookup_lt_Some _ _ _ Hx) as Hi.
  rewrite rolling_mean_length in Hi. rewrite rolling_mean_lookup in Hx by assumption.
  injection Hx as <-. apply window_mean_zeros, window_at_Forall. assumption.
Qed.

(** X9: on a series whose closes are all equal, every RSI entry is
    undefined (0/0), for any window; the cleaned frame of such a history
    is empty. *)
Theorem calculate_rsi_flat (data : list np_float) (window : nat) :
  flat data ->
  (forall i, i < length data -> calculate_rsi data window !! i = Some NaN)
  /\ (forall history : list bar, Close <$> history = data ->
                                 dropna (with_rsi history) = []).
Proof.
  intros Hf. destruct (flat_zero data Hf) as [Hg Hl].
  assert (forall w i x, calculate_rsi data w !! i = Some x -> x = NaN) as Hnan.
  { intros w i x Hx. apply calculate_rsi_lookup in Hx.
    destruct Hx as (g & l & Hgi & Hli & ->).
    rewrite gain_ma_gains in Hgi. rewrite loss_ma_losses in Hli.
    destruct (rolling_mean_zeros _ _ _ _ Hg Hgi) as [-> | ->];
      destruct (rolling_mean_zeros _ _ _ _ Hl Hli) as [-> | ->]; reflexivity. }
  split.
  - intros i Hi.
    assert (is_Some (calculate_rsi data window !! i)) as [x Hx].
    { apply lookup_lt_is_Some. rewrite calculate_rsi_length. assumption. }
    rewrite Hx. f_equal. eapply Hnan. eassumption.
  - intros history <-. unfold dropna. apply filter_none.
    apply Forall_lookup. intros i r Hr.
    assert ((row_RSI <$> with_rsi history) !! i = Some (row_RSI r)) as Hcol.
    { rewrite list_lookup_fmap, Hr. reflexivity. }
    rewrite with_rsi_column in Hcol. apply Hnan in Hcol. rewrite Hcol. discriminate.
Qed.

Lemma calculate_rsi_flat_witness :
  (forall i, i < length (closes [5; 5; 5; 5]%Z) ->
             calculate_rsi (closes [5; 5; 5; 5]%Z) 2 !! i = Some NaN)
  /\ (forall history : list bar, Close <$> history = closes [5; 5; 5; 5]%Z ->
                                 dropna (with_rsi history) = []).
Proof.
  apply calculate_rsi_flat. intros j a b Ha Hb.
  do 4 (destruct j as [|j];
        [vm_compute in Ha, Hb; injection Ha as <-;
         first [discriminate Hb | injection Hb as <-; reflexivity]|]).
  discriminate.
Defined.

(** ** The RSI depends on price changes only *)



Section Scaling.

Variable k : Q.
Hypothesis k_pos : (0 < k)%Q.

Lemma scale_sign_lt (q : Q) : Qltb (Qred (q * k)) 0 = Qltb q 0.
Proof.
  destruct (Qltb q 0) eqn:E.
  - apply Qltb_true in E. apply Qltb_true. rewrite Qred_correct. nra.
  - apply Qltb_false in E. apply Qltb_false. rewrite Qred_correct. nra.
Qed.

Lemma scale_sign_gt (q : Q) : Qltb 0 (Qred (q * k)) = Qltb 0 q.
Proof.
  destruct (Qltb 0 q) eqn:E.
  - apply Qltb_true in E. apply Qltb_true. rewrite Qred_correct. nra.
  - apply Qltb_false in E. apply Qltb_false. rewrite Qred_correct. nra.
Qed.

Lemma scale_zero (q : Q) : Qeq_bool (Qred (q * k)) 0 = Qeq_bool q 0.
Proof.
  destruct (Qeq_bool q 0) eqn:E.
  - apply Qeq_bool_iff in E. apply Qeq_bool_iff. rewrite Qred_correct, E. ring.
  - apply Qeq_bool_false in E. apply Qeq_bool_false. rewrite Qred_correct.
    intros H. apply Qmult_integral in H. destruct H as [H | H]; [contradiction|].
    rewrite H in k_pos. discriminate.
Qed.

Lemma fscale_zero : fscale k (Fin 0) = Fin 0.
Proof. reflexivity. Qed.

Lemma fscale_fneg (x : np_float) : fneg (fscale k x) = fscale k (fneg x).
Proof.
  destruct x as [|s|q]; try reflexivity. simpl. f_equal.
  apply Qred_complete. rewrite !Qred_correct. ring.
Qed.

Lemma fscale_fadd (x y : np_float) : fadd (fscale k x) (fscale k y) = fscale k (fadd x y).
Proof.
  destruct x as [|s|p], y as [|t|q]; try reflexivity.
  - simpl. destruct (Bool.eqb s t); reflexivity.
  - simpl. f_equal. apply Qred_complete. rewrite !Qred_correct. ring.
Qed.

Lemma fscale_fsub (x y : np_float) : fsub (fscale k x) (fscale k y) = fscale k (fsub x y).
Proof. unfold fsub. rewrite fscale_fneg. apply fscale_fadd. Qed.

Lemma fscale_fgt0 (x : np_float) : fgt0 (fscale k x) = fgt0 x.
Proof. destruct x; try reflexivity. apply scale_sign_gt. Qed.

Lemma fscale_flt0 (x : np_float) : flt0 (fscale k x) = flt0 x.
Proof. destruct x; try reflexivity. apply scale_sign_lt. Qed.

Lemma fscale_isnan (x : np_float) : isnan (fscale k x) = isnan x.
Proof. destruct x; reflexivity. Qed.

(** Dividing by a count commutes with scaling. *)
Lemma fscale_fdiv_count (x : np_float) (n : Q) :
  fdiv (fscale k x) (Fin n) = fscale k (fdiv x (Fin n)).
Proof.
  destruct x as [|s|p]; try reflexivity. simpl. rewrite scale_zero, scale_sign_lt.
  destruct (Qeq_bool n 0) eqn:En.
  - destruct (Qeq_bool p 0); reflexivity.
  - simpl. f_equal. apply Qred_complete. rewrite !Qred_correct.
    apply Qeq_bool_false in En. field. assumption.
Qed.

(** A ratio of two scaled values is the ratio of the values. *)
Lemma fscale_fdiv (x y : np_float) : fdiv (fscale k x) (fscale k y) = fdiv x y.
Proof.
  destruct x as [|s|p], y as [|t|q]; try reflexivity; simpl.
  - rewrite scale_sign_lt. reflexivity.
  - rewrite !scale_zero, scale_sign_lt.
    destruct (Qeq_bool q 0) eqn:Eq; [reflexivity|].
    f_equal. apply Qred_complete. rewrite !Qred_correct.
    apply Qeq_bool_false in Eq.
    assert (~ (k == 0)%Q) as Hk by (intros H; rewrite H in k_pos; discriminate).
    field. repeat split; assumption.
Qed.

Lemma zip_with_fscale (f : np_float -> np_float -> np_float) (l1 l2 : list np_float) :
  (forall a b, f (fscale k a) (fscale k b) = fscale k (f a b)) ->
  zip_with f (fscale k <$> l1) (fscale k <$> l2) = fscale k <$> zip_with f l1 l2.
Proof.
  intros Hf. revert l2. induction l1 as [|a l1 IH]; intros [|b l2]; try reflexivity.
  rewrite !fmap_cons. simpl. rewrite Hf. f_equal. apply IH.
Qed.

Lemma diff_scaled (data : list np_float) : diff (scaled k data) = fscale k <$> diff data.
Proof.
  unfold scaled. destruct data as [|x rest]; [reflexivity|].
  change (NaN :: zip_with fsub (fscale k <$> rest) (fscale k <$> x :: rest)
          = NaN :: (fscale k <$> zip_with fsub rest (x :: rest))).
  f_equal. apply zip_with_fscale, fscale_fsub.
Qed.

Lemma where_lookup (d : list np_float) (f : np_float -> bool) (o : np_float) (i : nat) :
  where_ d (f <$> d) o !! i = (fun x => if f x then x else o) <$> d !! i.
Proof.
  unfold where_. rewrite lookup_zip_with, list_lookup_fmap.
  destruct (d !! i); reflexivity.
Qed.

Lemma gains_scaled (data : list np_float) : gains (scaled k data) = fscale k <$> gains data.
Proof.
  unfold gains. rewrite diff_scaled. apply list_eq. intros i.
  rewrite where_lookup, !list_lookup_fmap, where_lookup.
  destruct (diff data !! i) as [d|]; [|reflexivity]. simpl. f_equal.
  rewrite fscale_fgt0. destruct (fgt0 d); [reflexivity | symmetry; apply fscale_zero].
Qed.

Lemma losses_scaled (data : list np_float) :
  losses (scaled k data) = fscale k <$> losses data.
Proof.
  unfold losses. rewrite diff_scaled. apply list_eq. intros i.
  rewrite !list_lookup_fmap, where_lookup, !list_lookup_fmap, where_lookup.
  destruct (diff data !! i) as [d|]; [|reflexivity]. simpl. f_equal.
  rewrite fscale_flt0. destruct (flt0 d); [apply fscale_fneg | reflexivity].
Qed.

Lemma filter_scaled (w : list np_float) :
  filter (fun x => isnan x = false) (fscale k <$> w)
  = fscale k <$> filter (fun x => isnan x = false) w.
Proof.
  induction w as [|x w IH]; [reflexivity|]. rewrite fmap_cons, !filter_cons.
  rewrite fscale_isnan. destruct (decide (isnan x = false)); rewrite IH; reflexivity.
Qed.

Lemma fold_fadd_scaled (l : list np_float) (acc : np_float) :
  fold_left fadd (fscale k <$> l) (fscale k acc) = fscale k (fold_left fadd l acc).
Proof.
  revert acc. induction l as [|x l IH]; intros acc; [reflexivity|].
  rewrite fmap_cons. simpl. rewrite fscale_fadd. apply IH.
Qed.

Lemma window_mean_scaled (min_periods : nat) (w : list np_float) :
  window_mean min_periods (fscale k <$> w) = fscale k (window_mean min_periods w).
Proof.
  unfold window_mean. rewrite filter_scaled, length_fmap.
  destruct (_ && _); [|reflexivity].
  unfold fsum. rewrite <- fscale_zero at 1. rewrite fold_fadd_scaled.
  apply fscale_fdiv_count.
Qed.

Lemma rolling_mean_scaled (window : nat) (s : list np_float) :
  rolling_mean window (fscale k <$> s) = fscale k <$> rolling_mean window s.
Proof.
  unfold rolling_mean. rewrite length_fmap, <- list_fmap_compose.
  apply list_fmap_ext. intros i j _. simpl. unfold window_at.
  rewrite <- fmap_take, <- fmap_drop. apply window_mean_scaled.
Qed.

Lemma calculate_rsi_scaled (data : list np_float) (window : nat) :
  calculate_rsi (scaled k data) window = calculate_rsi data window.
Proof.
  unfold calculate_rsi. rewrite !gain_ma_gains, !loss_ma_losses.
  rewrite gains_scaled, losses_scaled, !rolling_mean_scaled.
  f_equal. rewrite zip_with_fmap_l, zip_with_fmap_r.
  apply zip_with_ext; [|reflexivity|reflexivity]. intros a b. apply fscale_fdiv.
Qed.

End Scaling.

(** X11: multiplying every close by the same positive factor (another
    currency unit, a stock split) leaves the whole RSI column unchanged. *)
Theorem calculate_rsi_scale_invariant (k : Q) (data : list np_float) (window : nat) :
  (0 < k)%Q -> calculate_rsi (scaled k data) window = calculate_rsi data window.
Proof. intros Hk. apply calculate_rsi_scaled. assumption. Qed.

Lemma calculate_rsi_scale_invariant_witness :
  calculate_rsi (scaled 2.5 (closes [3; 5; 4; 8]%Z)) 3
  = calculate_rsi (closes [3; 5; 4; 8]%Z) 3.
Proof. apply calculate_rsi_scale_invariant. reflexivity. Defined.

(** X12: where both averages are finite and the loss average is positive,
    the RSI is 100 * gain / (gain + loss). *)
Theorem calculate_rsi_ratio (data : list np_float) (window i : nat) (g l : Q) :
  gain_ma data window !! i = Some (Fin g) ->
  loss_ma data window !! i = Some (Fin l) ->
  (0 < l)%Q ->
  exists r, calculate_rsi data window !! i = Some (Fin r)
            /\ (r == 100 * g / (g + l))%Q.
Proof.
  intros Hg Hl Hpos.
  assert (0 <= g)%Q as Hg0.
  { destruct (gain_ma_nonneg _ _ _ _ Hg) as [E | H]; [discriminate | exact H]. }
  assert (Qeq_bool l 0 = false) as El.
  { apply Qeq_bool_false. intros E. rewrite E in Hpos. discriminate. }
  assert (0 <= g / l)%Q as Hrs.
  { apply Qle_shift_div_l; [assumption | lra]. }
  set (y := Qred (1 + Qred (g / l))).
  assert (y == 1 + g / l)%Q as Hy by (unfold y; rewrite !Qred_correct; reflexivity).
  assert (Qeq_bool y 0 = false) as Ey.
  { apply Qeq_bool_false. rewrite Hy. intros E. lra. }
  eexists. split.
  - apply calculate_rsi_lookup. exists (Fin g), (Fin l).
    split; [assumption|]. split; [assumption|].
    unfold fsub. cbn -[Qeq_bool Qred Qdiv]. rewrite El. cbn -[Qeq_bool Qred Qdiv].
    fold y. rewrite Ey. reflexivity.
  - rewrite !Qred_correct, Hy. field. split; lra.
Qed.

Lemma calculate_rsi_ratio_witness :
  exists r, calculate_rsi (closes [1; 2; 3; 2; 5]%Z) 3 !! 3 = Some (Fin r)
            /\ (r == 100 * (2 # 3) / ((2 # 3) + (1 # 3)))%Q.
Proof.
  apply (calculate_rsi_ratio (closes [1; 2; 3; 2; 5]%Z) 3 3 (2 # 3) (1 # 3)); reflexivity.
Defined.
(** ** More on the news loop *)

(** X13: at most five headlines are kept for display, and they are the
    headlines of the first five titles collected. *)
Theorem normalize_display (sentiment_pipe : string -> option string)
    (news_list : list nval) (st : loop_state) :
  normalize sentiment_pipe news_list = Ok st ->
  length (display_news st) <= 5
  /\ title <$> display_news st = take 5 (titles_found st)
  /\ length (display_news st) = min 5 (length (titles_found st)).
Proof.
  intros Hn. apply normalize_spec in Hn. destruct Hn as (Ht & Hd & _).
  assert (title <$> display_news st = take 5 (titles_found st)) as E.
  { rewrite Hd, Ht, fmap_take, take_take. reflexivity. }
  split; [rewrite Hd, length_take; lia|]. split; [assumption|].
  rewrite <- (length_fmap title), E, length_take. reflexivity.
Qed.

Lemma normalize_display_witness :
  exists st, normalize (always "neutral") same_title_twice = Ok st
             /\ length (display_news st) <= 5
             /\ title <$> display_news st = take 5 (titles_found st).
Proof.
  eexists. split; [vm_compute; reflexivity|].
  split; eapply (normalize_display (always "neutral") same_title_twice);
    vm_compute; reflexivity.
Defined.




Section NewsLoopMore.

Variable sentiment_pipe : string -> option string.



Lemma news_loop_seen (news_list : list nval) :
  forall st st', news_loop sentiment_pipe news_list st = Ok st' ->
                 seen_titles st = list_to_set (titles_found st) ->
                 seen_titles st' = list_to_set (titles_found st').
Proof.
  induction news_list as [|n rest IH]; intros st st'; cbn [news_loop].
  - intros [= <-]. auto.
  - destruct (20 <=? length (titles_found st))%nat; [intros [= <-]; auto|].
    destruct (loop_body sentiment_pipe n st) as [st1|e1] eqn:Hbody; cbn; [|discriminate].
    intros Hloop Hinv. apply (IH st1 st' Hloop).
    apply loop_body_cases in Hbody.
    destruct Hbody as [_ [(_ & Ht & Hs & _) | (h & _ & _ & Ht & Hs & _)]].
    + rewrite Ht, Hs. assumption.
    + rewrite Ht, Hs, Hinv, list_to_set_app_L. simpl.
      rewrite union_empty_r_L. reflexivity.
Qed.

End NewsLoopMore.

(** Two states that differ in their scores only. *)
Lemma loop_body_independent (pipe1 pipe2 : string -> option string) (n : nval)
    (st1 st2 st1' : loop_state) :
  titles_found st2 = titles_found st1 -> display_news st2 = display_news st1 ->
  seen_titles st2 = seen_titles st1 -> examined st2 = examined st1 ->
  loop_body pipe1 n st1 = Ok st1' ->
  exists st2', loop_body pipe2 n st2 = Ok st2'
               /\ titles_found st2' = titles_found st1'
               /\ display_news st2' = display_news st1'
               /\ seen_titles st2' = seen_titles st1'
               /\ examined st2' = examined st1'.
Proof.
  intros Et Ed Es Ee. unfold loop_body. rewrite Et, Ed, Es, Ee.
  destruct (extract_title n) as [t|]; [|discriminate].
  destruct (extract_link n) as [l|]; [|discriminate]. cbn -[ntruthy].
  destruct (ntruthy t); cbn -[ntruthy].
  - destruct (hashable_title t) as [s|]; [|discriminate]. cbn.
    case_bool_decide; intros [= <-]; eexists; (split; [reflexivity|]); auto.
  - intros [= <-]. eexists. split; [reflexivity|]. auto.
Qed.

Lemma news_loop_independent (pipe1 pipe2 : string -> option string)
    (news_list : list nval) :
  forall st1 st2 st1',
    titles_found st2 = titles_found st1 -> display_news st2 = display_news st1 ->
    seen_titles st2 = seen_titles st1 -> examined st2 = examined st1 ->
    news_loop pipe1 news_list st1 = Ok st1' ->
    exists st2', news_loop pipe2 news_list st2 = Ok st2'
                 /\ titles_found st2' = titles_found st1'
                 /\ display_news st2' = display_news st1'
                 /\ seen_titles st2' = seen_titles st1'
                 /\ examined st2' = examined st1'.
Proof.
  induction news_list as [|n rest IH]; intros st1 st2 st1' Et Ed Es Ee; cbn [news_loop].
  - intros [= <-]. eauto 10.
  - rewrite Et. destruct (20 <=? length (titles_found st1))%nat.
    + intros [= <-]. eauto 10.
    + destruct (loop_body pipe1 n st1) as [s1|] eqn:Hb; cbn; [|discriminate].
      intros Hloop.
      destruct (loop_body_independent pipe1 pipe2 n st1 st2 s1 Et Ed Es Ee Hb)
        as (s2 & -> & Et' & Ed' & Es' & Ee').
      cbn. eapply IH; eassumption.
Qed.



(** X15: the set of seen titles holds exactly the titles collected. *)
Theorem normalize_seen_titles (sentiment_pipe : string -> option string)
    (news_list : list nval) (st : loop_state) :
  normalize sentiment_pipe news_list = Ok st ->
  seen_titles st = list_to_set (titles_found st).
Proof. intros Hn. eapply news_loop_seen; [exact Hn | reflexivity]. Qed.

Lemma normalize_seen_titles_witness :
  exists st, normalize (always "neutral") same_title_twice = Ok st
             /\ seen_titles st = list_to_set (titles_found st).
Proof.
  eexists. split; [vm_compute; reflexivity|].
  apply (normalize_seen_titles (always "neutral") same_title_twice).
  vm_compute; reflexivity.
Defined.

(** X16: what the classifier does has no effect on the headlines: with
    another classifier, or one that fails on every title, the loop
    examines the same items and leaves the same titles and display list;
    only the scores differ. *)
Theorem normalize_classifier_independent (pipe1 pipe2 : string -> option string)
    (news_list : list nval) (st1 : loop_state) :
  normalize pipe1 news_list = Ok st1 ->
  exists st2, normalize pipe2 news_list = Ok st2
              /\ titles_found st2 = titles_found st1
              /\ display_news st2 = display_news st1
              /\ seen_titles st2 = seen_titles st1
              /\ examined st2 = examined st1.
Proof. apply news_loop_independent; reflexivity. Qed.

Lemma normalize_classifier_independent_witness :
  exists st2, normalize (fun _ => None) same_title_twice = Ok st2
              /\ titles_found st2 = ["Fed holds rates"].
Proof.
  destruct (normalize (always "positive") same_title_twice) as [st1|] eqn:H1;
    [|vm_compute in H1; discriminate].
  destruct (normalize_classifier_independent (always "positive") (fun _ => None)
              same_title_twice st1 H1) as (st2 & H2 & Et & _).
  exists st2. split; [assumption|]. rewrite Et.
  vm_compute in H1. injection H1 as <-. reflexivity.
Defined.
(** ** Title resolution *)



(** ** More on the sentiment bands *)

Lemma zsum_bounds (scores : list Z) :
  Forall (fun z => z = (-1)%Z \/ z = 0%Z \/ z = 1%Z) scores ->
  (- Z.of_nat (length scores) <= zsum scores <= Z.of_nat (length scores))%Z.
Proof.
  induction scores as [|z l IH]; intros Hl; [unfold zsum; simpl; lia|].
  inversion Hl; subst. rewrite zsum_cons. specialize (IH ltac:(assumption)).
  simpl length. lia.
Qed.

Lemma mean_compare (z n : Z) (a b : Z) :
  (0 < n)%Z -> (0 < b)%Z ->
  ((inject_Z a / inject_Z b < inject_Z z / inject_Z n)%Q <-> (a * n < b * z)%Z).
Proof.
  intros Hn Hb.
  assert (0 < inject_Z n)%Q as Hnq.
  { replace 0%Q with (inject_Z 0) by reflexivity. rewrite <- Zlt_Qlt. assumption. }
  assert (0 < inject_Z b)%Q as Hbq.
  { replace 0%Q with (inject_Z 0) by reflexivity. rewrite <- Zlt_Qlt. assumption. }
  assert (inject_Z a / inject_Z b < inject_Z z / inject_Z n
          <-> inject_Z a * inject_Z n < inject_Z b * inject_Z z)%Q as ->.
  { split; intros H.
    - apply (Qmult_lt_compat_r _ _ (inject_Z b * inject_Z n)) in H.
      + assert (inject_Z a / inject_Z b * (inject_Z b * inject_Z n)
                == inject_Z a * inject_Z n)%Q as E1 by (field; lra).
        assert (inject_Z z / inject_Z n * (inject_Z b * inject_Z n)
                == inject_Z b * inject_Z z)%Q as E2 by (field; lra).
        rewrite E1, E2 in H. assumption.
      + apply Qmult_lt_0_compat; assumption.
    - apply Qlt_shift_div_l; [assumption|].
      assert (inject_Z a / inject_Z b * inject_Z n
              == inject_Z a * inject_Z n / inject_Z b)%Q as -> by (field; lra).
      apply Qlt_shift_div_r; [assumption|]. rewrite (Qmult_comm (inject_Z z)). assumption. }
  rewrite <- !inject_Z_mult, <- Zlt_Qlt. reflexivity.
Qed.

(** X18: for a non-empty list of scores in {-1, 0, +1} the mean lies in
    [-1, 1]; the label is Positive exactly when 20 times the sum of the
    scores exceeds 3 times their number, Negative exactly when it is below
    minus that, and Neutral / Mixed in between. *)
Theorem aggregate_bands (scores : list Z) :
  scores <> [] ->
  Forall (fun z => z = (-1)%Z \/ z = 0%Z \/ z = 1%Z) scores ->
  let n := Z.of_nat (length scores) in
  (-1 <= fst (aggregate scores) <= 1)%Q
  /\ (snd (aggregate scores) = Positive (fst (aggregate scores))
      <-> (3 * n < 20 * zsum scores)%Z)
  /\ (snd (aggregate scores) = Negative (fst (aggregate scores))
      <-> (20 * zsum scores < - (3 * n))%Z)
  /\ (snd (aggregate scores) = NeutralMixed
      <-> (- (3 * n) <= 20 * zsum scores <= 3 * n)%Z).
Proof.
  intros Hne Hvals n. pose proof (zsum_bounds scores Hvals) as Hb. fold n in Hb.
  assert (0 < n)%Z as Hn by (unfold n; destruct scores; [contradiction | simpl; lia]).
  assert (fst (aggregate scores) = mean scores
          /\ snd (aggregate scores)
             = (if Qltb 0.15 (mean scores) then Positive (mean scores)
                else if Qltb (mean scores) (-0.15) then Negative (mean scores)
                else NeutralMixed)) as [-> ->].
  { destruct scores; [contradiction | split; reflexivity]. }
  assert (mean scores == inject_Z (zsum scores) / inject_Z n)%Q as Hm
      by apply Qred_correct.
  assert (0 < inject_Z n)%Q as Hnq.
  { replace 0%Q with (inject_Z 0) by reflexivity. rewrite <- Zlt_Qlt. assumption. }
  assert ((0.15 < mean scores)%Q <-> (3 * n < 20 * zsum scores)%Z) as Hpos.
  { rewrite Hm. assert (0.15 == inject_Z 3 / inject_Z 20)%Q as -> by reflexivity.
    apply (mean_compare (zsum scores) n 3 20); lia. }
  assert ((mean scores < -0.15)%Q <-> (20 * zsum scores < - (3 * n))%Z) as Hneg.
  { rewrite Hm.
    assert (inject_Z (zsum scores) / inject_Z n < -0.15
            <-> inject_Z 3 / inject_Z 20 < inject_Z (- zsum scores) / inject_Z n)%Q as ->.
    { rewrite inject_Z_opp.
      assert (inject_Z 3 / inject_Z 20 == 0.15)%Q as -> by reflexivity.
      assert (- inject_Z (zsum scores) / inject_Z n
              == - (inject_Z (zsum scores) / inject_Z n))%Q as ->
          by (field; lra).
      split; intros H; lra. }
    rewrite (mean_compare (- zsum scores) n 3 20) by lia. lia. }
  split.
  - rewrite Hm. split.
    + apply Qle_shift_div_l; [assumption|].
      assert (-1 * inject_Z n == inject_Z (- n))%Q as -> by (rewrite inject_Z_opp; ring).
      rewrite <- Zle_Qle. lia.
    + apply Qle_shift_div_r; [assumption|]. rewrite Qmult_1_l, <- Zle_Qle. lia.
  - destruct (Qltb 0.15 (mean scores)) eqn:E1.
    + apply Qltb_true in E1. apply Hpos in E1.
      split; [|split]; split; try discriminate; try reflexivity; intros; lia.
    + apply Qltb_false in E1.
      assert (~ (3 * n < 20 * zsum scores)%Z) as Hnp.
      { intros H. apply Hpos in H. lra. }
      destruct (Qltb (mean scores) (-0.15)) eqn:E2.
      * apply Qltb_true in E2. apply Hneg in E2.
        split; [|split]; split; try discriminate; try reflexivity; intros; lia.
      * apply Qltb_false in E2.
        assert (~ (20 * zsum scores < - (3 * n))%Z) as Hnn.
        { intros H. apply Hneg in H. lra. }
        split; [|split]; split; try discriminate; try reflexivity; intros; lia.
Qed.

Lemma aggregate_bands_witness :
  (-1 <= fst (aggregate [1; 0; 0; 0; 0; 0]%Z) <= 1)%Q
  /\ (snd (aggregate [1; 0; 0; 0; 0; 0]%Z)
      = Positive (fst (aggregate [1; 0; 0; 0; 0; 0]%Z))
      <-> (3 * 6 < 20 * zsum [1; 0; 0; 0; 0; 0])%Z).
Proof.
  destruct (aggregate_bands [1; 0; 0; 0; 0; 0]%Z) as (H1 & H2 & _).
  - discriminate.
  - repeat (apply Forall_cons; split; [lia|]). apply Forall_nil. exact I.
  - split; assumption.
Defined.
